(** * cocoasm.statement: one line of 6809 assembly, parsed and translated

    A shallow embedding of [cocoasm/statement.py]: the three line
    patterns with the backtracking semantics of Python's [re], the
    [Statement] object with its parser, and [match_mnemonic] and
    [translate] written in a small state-and-exception monad over the
    object store they run in.

    The collaborators that live in other modules of the package
    ([cocoasm.operand], [cocoasm.instruction], [cocoasm.helpers]) are an
    interface, [Externals]; the statements below hold for every
    implementation of it, and one instance, written from the prose
    description of the package, is used to run the code on concrete
    lines. *)

From Stdlib Require Import ZArith Ascii String List Bool Lia.
From stdpp Require Import base option list gmap strings.

Local Open Scope string_scope.
Local Open Scope list_scope.

(** ** Python values

    The attributes [op_code], [post_byte], [additional] and [address]
    of a statement are dynamically typed: [None], an [int] (a value of
    the instruction table, or the constant [0x9F]) or a [str]. *)

Inductive pyval : Type :=
| PNone
| PInt (z : Z)
| PStr (s : string).

Global Instance pyval_eq_dec : EqDecision pyval.
Proof. solve_decision. Defined.

(** [bool(v)]: [None], [0] and the empty string are false. *)
Definition truthy (v : pyval) : bool :=
  match v with
  | PNone => false
  | PInt z => negb (Z.eqb z 0)
  | PStr s => negb (String.eqb s "")
  end.

(** [a or b] on values. *)
Definition py_or (a b : pyval) : pyval := if truthy a then a else b.

(** [len(v)]: defined on strings only, a [TypeError] otherwise. *)
Definition py_len (v : pyval) : option nat :=
  match v with
  | PStr s => Some (String.length s)
  | _ => None
  end.

(** Decimal rendering of an integer, as [str.format] prints an [int]. *)
Definition digit_char (n : nat) : ascii := ascii_of_nat (48 + n).

Fixpoint dec_digits (fuel n : nat) (acc : string) : string :=
  match fuel with
  | O => acc
  | S f =>
      let acc' := String (digit_char (n mod 10)) acc in
      if Nat.eqb (n / 10) 0 then acc' else dec_digits f (n / 10) acc'
  end.

Definition dec_of_nat (n : nat) : string := dec_digits (S n) n "".

Definition dec_of_Z (z : Z) : string :=
  if Z.ltb z 0 then "-" ++ dec_of_nat (Z.to_nat (- z)) else dec_of_nat (Z.to_nat z).

(** ["{}".format(v)]. *)
Definition py_format (v : pyval) : string :=
  match v with
  | PNone => "None"
  | PInt z => dec_of_Z z
  | PStr s => s
  end.

(** ["{}".format(x)] for an attribute that is a [str] or [None]. *)
Definition format_opt (o : option string) : string :=
  match o with
  | Some s => s
  | None => "None"
  end.

(** [x or None] for a [str] [x]. *)
Definition str_or_None (s : string) : option string :=
  if String.eqb s "" then None else Some s.

(** [x or ""] for a [str]-or-[None] attribute. *)
Definition opt_or_empty (o : option string) : string :=
  match o with
  | Some s => if String.eqb s "" then "" else s
  | None => ""
  end.

(** ** Characters

    A line is a [str]; the model covers the code points below 256, one
    [ascii] each.  [\s] and [\w] are Python 3's classes for [str]
    patterns on that range. *)

Definition code (c : ascii) : nat := nat_of_ascii c.

Definition between (lo hi n : nat) : bool := Nat.leb lo n && Nat.leb n hi.

Definition is_space (c : ascii) : bool :=
  let n := code c in
  between 9 13 n || between 28 32 n || Nat.eqb n 133 || Nat.eqb n 160.

Definition is_word (c : ascii) : bool :=
  let n := code c in
  between 48 57 n || between 65 90 n || Nat.eqb n 95 || between 97 122 n
  || Nat.eqb n 170 || between 178 179 n || Nat.eqb n 181 || between 185 186 n
  || between 188 190 n || between 192 214 n || between 216 246 n
  || between 248 255 n.

Definition newline : ascii := ascii_of_nat 10.

(** [str.strip()]. *)
Fixpoint lstrip (s : list ascii) : list ascii :=
  match s with
  | c :: s' => if is_space c then lstrip s' else s
  | [] => []
  end.

Definition strip_chars (s : list ascii) : list ascii :=
  rev (lstrip (rev (lstrip s))).

Definition strip (s : string) : string :=
  string_of_list_ascii (strip_chars (list_ascii_of_string s)).

(** ** Patterns

    The fragment of [re] that the three patterns of the module use: the
    anchors, one character of a class, and a greedy repetition of a
    class, possibly captured under a name. *)

Module Re.

Inductive atom : Type :=
| ASpace                       (* \s *)
| AWord                        (* \w *)
| AChar (c : ascii)            (* a literal *)
| ARange (lo hi : ascii).      (* lo-hi inside brackets *)

Inductive cls : Type :=
| Dot                          (* . : anything but a newline *)
| Atom (a : atom)
| Bracket (l : list atom).     (* [...] *)

Inductive item : Type :=
| Bol                          (* ^ *)
| Eol                          (* $ *)
| One (c : cls)                (* c *)
| Star (c : cls)               (* c* *)
| Plus (c : cls)               (* c+ *)
| Group (name : string) (c : cls).   (* (?P<name>c* ) *)

Definition atom_mem (a : atom) (x : ascii) : bool :=
  match a with
  | ASpace => is_space x
  | AWord => is_word x
  | AChar c => Nat.eqb (code x) (code c)
  | ARange lo hi => between (code lo) (code hi) (code x)
  end.

Definition mem (c : cls) (x : ascii) : bool :=
  match c with
  | Dot => negb (Nat.eqb (code x) (code newline))
  | Atom a => atom_mem a x
  | Bracket l => existsb (fun a => atom_mem a x) l
  end.

(** [$] without [re.MULTILINE]: the end of the text, or just before a
    newline that ends the text. *)
Definition at_end (s : list ascii) : bool :=
  match s with
  | [] => true
  | [c] => Nat.eqb (code c) (code newline)
  | _ => false
  end.

Definition is_nil (s : list ascii) : bool :=
  match s with [] => true | _ => false end.

Definition captures : Type := list (string * list ascii).

(** A greedy repetition: take as many characters of the class as there
    are, then give them back one at a time until the rest of the pattern
    matches. *)
Fixpoint greedy {R : Type} (c : cls) (k : list ascii -> list ascii -> option R)
    (taken s : list ascii) : option R :=
  match s with
  | x :: s' =>
      if mem c x then
        match greedy c k (taken ++ [x]) s' with
        | Some r => Some r
        | None => k taken s
        end
      else k taken s
  | [] => k taken []
  end.

(** [run p at0 s caps]: match the pattern [p] at the head of [s];
    [at0] tells whether no character of the text has been passed yet. *)
Fixpoint run (p : list item) (at0 : bool) (s : list ascii) (caps : captures)
    : option captures :=
  match p with
  | [] => Some caps
  | Bol :: p' => if at0 then run p' at0 s caps else None
  | Eol :: p' => if at_end s then run p' at0 s caps else None
  | One c :: p' =>
      match s with
      | x :: s' => if mem c x then run p' false s' caps else None
      | [] => None
      end
  | Star c :: p' =>
      greedy c (fun t r => run p' (at0 && is_nil t) r caps) [] s
  | Plus c :: p' =>
      greedy c (fun t r => if is_nil t then None else run p' false r caps) [] s
  | Group n c :: p' =>
      greedy c (fun t r => run p' (at0 && is_nil t) r (caps ++ [(n, t)])) [] s
  end.

(** [pattern.match(text)]. *)
Definition re_match (p : list item) (text : string) : option captures :=
  run p true (list_ascii_of_string text) [].

(** [pattern.search(text)]: the first position at which the pattern
    matches. *)
Fixpoint search_from (p : list item) (at0 : bool) (s : list ascii)
    : option captures :=
  match run p at0 s [] with
  | Some r => Some r
  | None =>
      match s with
      | [] => None
      | _ :: s' => search_from p false s'
      end
  end.

Definition re_search (p : list item) (text : string) : option captures :=
  search_from p true (list_ascii_of_string text).

(** [m.group(name)]. *)
Fixpoint group (name : string) (caps : captures) : string :=
  match caps with
  | [] => ""
  | (n, t) :: caps' =>
      if String.eqb n name then string_of_list_ascii t else group name caps'
  end.

(** The language of a pattern, with no reference to the search order. *)
Fixpoint lang (p : list item) (at0 : bool) (s : list ascii) : Prop :=
  match p with
  | [] => True
  | Bol :: p' => at0 = true /\ lang p' at0 s
  | Eol :: p' => at_end s = true /\ lang p' at0 s
  | One c :: p' =>
      exists x s', s = x :: s' /\ mem c x = true /\ lang p' false s'
  | Star c :: p' =>
      exists t r, s = t ++ r /\ forallb (mem c) t = true
                  /\ lang p' (at0 && is_nil t) r
  | Plus c :: p' =>
      exists t r, s = t ++ r /\ is_nil t = false /\ forallb (mem c) t = true
                  /\ lang p' false r
  | Group _ c :: p' =>
      exists t r, s = t ++ r /\ forallb (mem c) t = true
                  /\ lang p' (at0 && is_nil t) r
  end.

Definition matches (p : list item) (text : string) : Prop :=
  lang p true (list_ascii_of_string text).

End Re.

(** The patterns of the module. *)

(* ^ \s* $ *)
Definition BLANK_LINE_REGEX : list Re.item :=
  [Re.Bol; Re.Star (Re.Atom Re.ASpace); Re.Eol].

(* ^ \s* ; \s* (?P<comment> .* ) $ *)
Definition COMMENT_LINE_REGEX : list Re.item :=
  [Re.Bol; Re.Star (Re.Atom Re.ASpace); Re.One (Re.Atom (Re.AChar ";"));
   Re.Star (Re.Atom Re.ASpace); Re.Group "comment" Re.Dot; Re.Eol].

(* [ \w \[ \] # $ , +-\. \* ] : inside the brackets, +-\. is the range
   from + to . (the characters + , - .) *)
Definition OPERAND_CHARS : Re.cls :=
  Re.Bracket [Re.AWord; Re.AChar "["; Re.AChar "]"; Re.AChar "#"; Re.AChar "$";
              Re.AChar ","; Re.ARange "+" "."; Re.AChar "*"].

(* ^ (?P<label> \w* ) \s+ (?P<mnemonic> \w* ) \s+
   (?P<operands> [...]* ) \s* [;]* (?P<comment> .* ) $ *)
Definition ASM_LINE_REGEX : list Re.item :=
  [Re.Bol; Re.Group "label" (Re.Atom Re.AWord); Re.Plus (Re.Atom Re.ASpace);
   Re.Group "mnemonic" (Re.Atom Re.AWord); Re.Plus (Re.Atom Re.ASpace);
   Re.Group "operands" OPERAND_CHARS; Re.Star (Re.Atom Re.ASpace);
   Re.Star (Re.Bracket [Re.AChar ";"]); Re.Group "comment" Re.Dot; Re.Eol].

(* ^ < (?P<value> .* ) *)
Definition DIR_REGEX : list Re.item :=
  [Re.Bol; Re.One (Re.Atom (Re.AChar "<")); Re.Group "value" Re.Dot].

(** ** The statement object *)

(** Object identities of the instruction descriptors. *)
Abbreviation loc := nat (only parsing).

(** The attributes of a [Statement], as [__init__] declares them.  The
    type of [operand] is the class [Operand] of [cocoasm.operand]. *)
Record Statement (O : Type) : Type := mkStatement {
  empty : bool;
  comment_only : bool;
  instruction : option loc;
  label : option string;
  operand : O;
  comment : option string;
  size : nat;
  address : pyval;
  mnemonic : option string;
  op_code : pyval;
  post_byte : pyval;
  additional : pyval;
  state : pyval
}.

Arguments mkStatement {O}.
Arguments empty {O}.
Arguments comment_only {O}.
Arguments instruction {O}.
Arguments label {O}.
Arguments operand {O}.
Arguments comment {O}.
Arguments size {O}.
Arguments address {O}.
Arguments mnemonic {O}.
Arguments op_code {O}.
Arguments post_byte {O}.
Arguments additional {O}.
Arguments state {O}.

(** ** The collaborators

    What [statement.py] imports from the rest of the package and calls:
    the class [Operand], the descriptors of the table [INSTRUCTIONS] with
    their [mode], and [hex_value].  None of them writes to an object it
    is given. *)
Class Externals : Type := {
  (* cocoasm.operand *)
  OperandT : Type;
  Operand : pyval -> OperandT;
  is_symbol : OperandT -> bool;
  is_inherent : OperandT -> bool;
  is_immediate : OperandT -> bool;
  is_extended_indirect : OperandT -> bool;
  is_direct : OperandT -> bool;
  is_extended : OperandT -> bool;
  get_string_value : OperandT -> pyval;
  get_immediate : OperandT -> pyval;
  get_extended_indirect : OperandT -> pyval;
  (* cocoasm.instruction *)
  ModeT : Type;
  InstructionT : Type;
  instr_mnemonic : InstructionT -> string;
  is_pseudo : InstructionT -> bool;
  is_special : InstructionT -> bool;
  is_branch_operation : InstructionT -> bool;
  mode : InstructionT -> ModeT;
  supports_inherent : ModeT -> bool;
  supports_immediate : ModeT -> bool;
  supports_indexed : ModeT -> bool;
  supports_direct : ModeT -> bool;
  supports_extended : ModeT -> bool;
  inh : ModeT -> pyval;
  imm : ModeT -> pyval;
  ind : ModeT -> pyval;
  dir : ModeT -> pyval;
  ext : ModeT -> pyval;
  rel : ModeT -> pyval;
  translate_pseudo :
    InstructionT -> string -> OperandT -> gmap string (Statement OperandT) -> pyval;
  translate_special : InstructionT -> OperandT -> pyval;
  INSTRUCTIONS : list loc;
  (* cocoasm.helpers: [hex_value(value, size)], the size being optional *)
  hex_value : pyval -> option nat -> pyval
}.

(** ** Exceptions and control

    [ParseError(message, self)] and [TranslationError(message, self)]
    take the statement by reference: it is the statement of the store
    the exception comes with.  [AttributeError] and [TypeError] are the
    interpreter's own, for a method called on [None] and for [len] of a
    value that has none. *)
Inductive exn : Type :=
| ParseError (message : string)
| TranslationError (message : string)
| AttributeError
| TypeError.

(** How a block of statements ends: it falls through with a value, it
    executes [return], or it raises. *)
Inductive outcome (A : Type) : Type :=
| Next (a : A)
| Returned
| Raised (e : exn).

Arguments Next {A}.
Arguments Returned {A}.
Arguments Raised {A}.

Section Machine.

Context `{E : Externals}.

Abbreviation Stmt := (Statement OperandT).

(** The store: the descriptor objects and the statement [self]. *)
Record world : Type := mkWorld {
  heap : gmap loc InstructionT;
  self : Stmt
}.

Definition M (A : Type) : Type := world -> outcome A * world.

Definition ret {A} (a : A) : M A := fun w => (Next a, w).

Definition bind {A B} (m : M A) (k : A -> M B) : M B :=
  fun w =>
    match m w with
    | (Next a, w') => k a w'
    | (Returned, w') => (Returned, w')
    | (Raised e, w') => (Raised e, w')
    end.

Definition raise {A} (e : exn) : M A := fun w => (Raised e, w).

(** The [return] statement. *)
Definition return_ {A} : M A := fun w => (Returned, w).

(** A method body: [return] ends it normally. *)
Definition call (body : M unit) : M unit :=
  fun w =>
    match body w with
    | (Returned, w') => (Next tt, w')
    | r => r
    end.

Definition get_self : M Stmt := fun w => (Next (self w), w).

Definition modify_self (f : Stmt -> Stmt) : M unit :=
  fun w => (Next tt, mkWorld (heap w) (f (self w))).

(** [if c: body] *)
Definition when_ (c : bool) (body : M unit) : M unit :=
  if c then body else ret tt.

End Machine.

Notation "x <- m ;; k" := (bind m (fun x => k))
  (at level 100, m at next level, right associativity).
Notation "m ;; k" := (bind m (fun _ => k))
  (at level 100, right associativity).

Section Statement.

Context `{E : Externals}.

Abbreviation Stmt := (Statement OperandT).

(** Attribute assignments [self.x = v]. *)
Definition set_empty (v : bool) : M unit :=
  modify_self (fun s => mkStatement v (comment_only s) (instruction s) (label s)
    (operand s) (comment s) (size s) (address s) (mnemonic s) (op_code s)
    (post_byte s) (additional s) (state s)).

Definition set_comment_only (v : bool) : M unit :=
  modify_self (fun s => mkStatement (empty s) v (instruction s) (label s)
    (operand s) (comment s) (size s) (address s) (mnemonic s) (op_code s)
    (post_byte s) (additional s) (state s)).

Definition set_instruction (v : option loc) : M unit :=
  modify_self (fun s => mkStatement (empty s) (comment_only s) v (label s)
    (operand s) (comment s) (size s) (address s) (mnemonic s) (op_code s)
    (post_byte s) (additional s) (state s)).

Definition set_label (v : option string) : M unit :=
  modify_self (fun s => mkStatement (empty s) (comment_only s) (instruction s) v
    (operand s) (comment s) (size s) (address s) (mnemonic s) (op_code s)
    (post_byte s) (additional s) (state s)).

Definition set_operand (v : OperandT) : M unit :=
  modify_self (fun s => mkStatement (empty s) (comment_only s) (instruction s)
    (label s) v (comment s) (size s) (address s) (mnemonic s) (op_code s)
    (post_byte s) (additional s) (state s)).

Definition set_comment (v : option string) : M unit :=
  modify_self (fun s => mkStatement (empty s) (comment_only s) (instruction s)
    (label s) (operand s) v (size s) (address s) (mnemonic s) (op_code s)
    (post_byte s) (additional s) (state s)).

Definition set_size (v : nat) : M unit :=
  modify_self (fun s => mkStatement (empty s) (comment_only s) (instruction s)
    (label s) (operand s) (comment s) v (address s) (mnemonic s) (op_code s)
    (post_byte s) (additional s) (state s)).

Definition set_address_attr (v : pyval) : M unit :=
  modify_self (fun s => mkStatement (empty s) (comment_only s) (instruction s)
    (label s) (operand s) (comment s) (size s) v (mnemonic s) (op_code s)
    (post_byte s) (additional s) (state s)).

Definition set_mnemonic (v : option string) : M unit :=
  modify_self (fun s => mkStatement (empty s) (comment_only s) (instruction s)
    (label s) (operand s) (comment s) (size s) (address s) v (op_code s)
    (post_byte s) (additional s) (state s)).

Definition set_op_code (v : pyval) : M unit :=
  modify_self (fun s => mkStatement (empty s) (comment_only s) (instruction s)
    (label s) (operand s) (comment s) (size s) (address s) (mnemonic s) v
    (post_byte s) (additional s) (state s)).

Definition set_post_byte (v : pyval) : M unit :=
  modify_self (fun s => mkStatement (empty s) (comment_only s) (instruction s)
    (label s) (operand s) (comment s) (size s) (address s) (mnemonic s)
    (op_code s) v (additional s) (state s)).

Definition set_additional (v : pyval) : M unit :=
  modify_self (fun s => mkStatement (empty s) (comment_only s) (instruction s)
    (label s) (operand s) (comment s) (size s) (address s) (mnemonic s)
    (op_code s) (post_byte s) v (state s)).

Definition set_state (v : pyval) : M unit :=
  modify_self (fun s => mkStatement (empty s) (comment_only s) (instruction s)
    (label s) (operand s) (comment s) (size s) (address s) (mnemonic s)
    (op_code s) (post_byte s) (additional s) v).

(** The accessors. *)
Definition get_address (s : Stmt) : pyval := py_or (address s) (PStr "0000").
Definition get_label (s : Stmt) : string := opt_or_empty (label s).
Definition get_mnemonic (s : Stmt) : string := opt_or_empty (mnemonic s).
Definition get_op_codes (s : Stmt) : pyval := py_or (hex_value (op_code s) None) PNone.
Definition get_additional (s : Stmt) : pyval := py_or (hex_value (additional s) None) PNone.
Definition get_post_byte (s : Stmt) : pyval := py_or (hex_value (post_byte s) None) PNone.
Definition get_comment (s : Stmt) : string := opt_or_empty (comment s).
Definition get_size (s : Stmt) : nat := size s.
Definition is_empty (s : Stmt) : bool := empty s.
Definition is_comment_only (s : Stmt) : bool := comment_only s.

(** [set_address]: the address is kept as [hex_value] renders it on four
    digits. *)
Definition set_address (a : pyval) : M unit :=
  set_address_attr (hex_value a (Some 4)).

(** [parse_line] *)
Definition parse_line (line : string) : M unit :=
  call (
    when_ (bool_decide (is_Some (Re.re_search BLANK_LINE_REGEX line))) return_ ;;
    match Re.re_match COMMENT_LINE_REGEX line with
    | Some data =>
        set_empty false ;;
        set_comment_only true ;;
        set_comment (Some (strip (Re.group "comment" data))) ;;
        return_
    | None => ret tt
    end ;;
    match Re.re_match ASM_LINE_REGEX line with
    | Some data =>
        set_label (str_or_None (Re.group "label" data)) ;;
        set_mnemonic (str_or_None (Re.group "mnemonic" data)) ;;
        set_operand (Operand (PStr (Re.group "operands" data))) ;;
        set_comment (str_or_None (strip (Re.group "comment" data))) ;;
        set_empty false ;;
        return_
    | None => ret tt
    end ;;
    raise (ParseError ("Could not parse line [" ++ line ++ "]"))).

(** [__init__] *)
Definition __init__ (line : string) : M unit :=
  set_empty true ;;
  set_comment_only false ;;
  set_instruction None ;;
  set_label None ;;
  set_operand (Operand PNone) ;;
  set_comment None ;;
  set_size 0 ;;
  set_address_attr PNone ;;
  set_address (PInt 0) ;;
  set_mnemonic None ;;
  set_op_code PNone ;;
  set_post_byte PNone ;;
  set_additional PNone ;;
  set_state PNone ;;
  parse_line line.

(** [match_operation]: the first descriptor of the table that has the
    statement's mnemonic. *)
Fixpoint find_operation (h : gmap loc InstructionT) (name : option string)
    (table : list loc) : option loc :=
  match table with
  | [] => None
  | l :: table' =>
      match h !! l with
      | Some op =>
          if bool_decide (Some (instr_mnemonic op) = name) then Some l
          else find_operation h name table'
      | None => find_operation h name table'
      end
  end.

Definition match_operation : M (option loc) :=
  fun w => (Next (find_operation (heap w) (mnemonic (self w)) INSTRUCTIONS), w).

(** [copy(x)]: [None] is its own copy; a descriptor gets a new object
    with the same attributes. *)
Definition copy (x : option loc) : M (option loc) :=
  fun w =>
    match x with
    | None => (Next None, w)
    | Some l =>
        match heap w !! l with
        | Some op =>
            let l' := fresh (dom (heap w)) in
            (Next (Some l'), mkWorld (<[l' := op]> (heap w)) (self w))
        | None => (Next None, w)
        end
    end.

(** [match_mnemonic] *)
Definition match_mnemonic : M unit :=
  call (
    found <- match_operation ;;
    c <- copy found ;;
    set_instruction c ;;
    s <- get_self ;;
    when_ (negb (bool_decide (is_Some (instruction s))))
      (raise (TranslationError
                ("Invalid mnemonic [" ++ format_opt (mnemonic s) ++ "]")))).

(** [self.instruction], as the receiver of a method call. *)
Definition self_instruction : M InstructionT :=
  fun w =>
    match instruction (self w) with
    | Some l =>
        match heap w !! l with
        | Some op => (Next op, w)
        | None => (Raised AttributeError, w)
        end
    | None => (Raised AttributeError, w)
    end.

(** [symbol_table[symbol]], after [symbol in symbol_table]. *)
Definition lookup_symbol (symbol : pyval)
    (symbol_table : gmap string Stmt) : option Stmt :=
  match symbol with
  | PStr name => symbol_table !! name
  | _ => None
  end.

(** [self.size += int(len(rendered) / 2)] *)
Definition add_size (rendered : pyval) : M unit :=
  match py_len rendered with
  | Some n => s <- get_self ;; set_size (size s + n / 2)
  | None => raise TypeError
  end.

(** [translate] *)
Definition translate (symbol_table : gmap string Stmt) : M unit :=
  call (
    i <- self_instruction ;;
    s <- get_self ;;
    when_ (is_pseudo i)
      (set_additional (translate_pseudo i (get_label s) (operand s) symbol_table) ;;
       return_) ;;
    when_ (is_special i)
      (set_post_byte (translate_special i (operand s)) ;;
       return_) ;;
    operand <-
      (let operand := operand s in
       if is_symbol operand then
         let symbol := get_string_value operand in
         match lookup_symbol symbol symbol_table with
         | None =>
             raise (TranslationError ("Unknown symbol [" ++ py_format symbol ++ "]"))
         | Some target =>
             let operand := Operand (get_address target) in
             if truthy (get_string_value operand) then ret operand else return_
         end
       else ret operand) ;;
    when_ (is_branch_operation i)
      (set_op_code (rel (mode i)) ;;
       return_) ;;
    when_ (is_inherent operand)
      (if supports_inherent (mode i) then set_op_code (inh (mode i))
       else raise (TranslationError
              ("Instruction [" ++ format_opt (mnemonic s) ++ "] requires an operand"))) ;;
    when_ (is_immediate operand)
      (if supports_immediate (mode i) then
         set_op_code (imm (mode i)) ;;
         set_additional (get_immediate operand)
       else raise (TranslationError
              ("Instruction [" ++ format_opt (mnemonic s)
               ++ "] does not support immediate addressing"))) ;;
    when_ (is_extended_indirect operand)
      (if supports_indexed (mode i) then
         set_op_code (ind (mode i)) ;;
         set_additional (get_extended_indirect operand) ;;
         set_post_byte (PInt 159)
       else raise (TranslationError
              ("Instruction [" ++ format_opt (mnemonic s)
               ++ "] does not support indexed addressing"))) ;;
    when_ (is_direct operand)
      (if supports_direct (mode i) then
         set_op_code (dir (mode i)) ;;
         set_additional (get_string_value operand)
       else raise (TranslationError
              ("Instruction [" ++ format_opt (mnemonic s)
               ++ "] does not support direct addressing"))) ;;
    when_ (is_extended operand)
      (if supports_extended (mode i) then
         set_op_code (ext (mode i)) ;;
         set_additional (get_string_value operand)
       else raise (TranslationError
              ("Instruction [" ++ format_opt (mnemonic s)
               ++ "] does not support extended addressing"))) ;;
    s1 <- get_self ;;
    when_ (truthy (op_code s1)) (add_size (get_op_codes s1)) ;;
    s2 <- get_self ;;
    when_ (truthy (additional s2)) (add_size (get_additional s2)) ;;
    s3 <- get_self ;;
    when_ (truthy (post_byte s3)) (add_size (get_post_byte s3))).

End Statement.

(** ** The listing line *)

Section Listing.

Context `{E : Externals}.

(** The attribute [operand_type] of an operand, which [__str__]
    prints. *)
Variable operand_type : OperandT -> pyval.

Fixpoint blanks (n : nat) : string :=
  match n with
  | O => ""
  | S n' => String " " (blanks n')
  end.

(** [s.ljust(width, ' ')] and [s.rjust(width, ' ')]. *)
Definition ljust (width : nat) (s : string) : string :=
  (s ++ blanks (width - String.length s))%string.

Definition rjust (width : nat) (s : string) : string :=
  (blanks (width - String.length s) ++ s)%string.

(** [if v: acc += sep + v], for a string [acc]. *)
Definition add_text (acc sep : string) (v : pyval) : exn + string :=
  if truthy v then
    match v with
    | PStr x => inr (acc ++ sep ++ x)%string
    | _ => inl TypeError
    end
  else inr acc.

Definition op_code_string (s : Statement OperandT) : exn + string :=
  match add_text "" "" (get_op_codes s) with
  | inl e => inl e
  | inr a1 =>
      match add_text a1 "" (get_post_byte s) with
      | inl e => inl e
      | inr a2 => add_text a2 " " (get_additional s)
      end
  end.

(** [__str__] *)
Definition __str__ (s : Statement OperandT) : exn + string :=
  match op_code_string s with
  | inl e => inl e
  | inr ops =>
      match get_string_value (operand s) with
      | PStr text =>
          inr ("$" ++ py_format (get_address s) ++ " " ++ ljust 15 ops ++ " "
               ++ rjust 10 (get_label s) ++ " " ++ rjust 5 (get_mnemonic s)
               ++ " " ++ rjust 15 text ++ "  ; " ++ ljust 40 (get_comment s)
               ++ " " ++ py_format (operand_type (operand s)))%string
      | _ => inl AttributeError
      end
  end.

End Listing.

(** ** One implementation of the collaborators

    The modules [cocoasm.operand], [cocoasm.instruction] and
    [cocoasm.helpers] are described in prose only; this instance follows
    that description.  It is what the concrete runs below execute. *)
Module SpecModel.

(** Modelled from the spec: the digits of [hex_value], which renders a
    value as a string of hexadecimal bytes ([0x86] as [86]). *)
Definition hex_digit (n : nat) : ascii :=
  if Nat.ltb n 10 then ascii_of_nat (48 + n) else ascii_of_nat (55 + n).

Fixpoint hex_digits (fuel : nat) (n : N) (acc : string) : string :=
  match fuel with
  | O => acc
  | S f =>
      let acc' := String (hex_digit (N.to_nat (n mod 16))) acc in
      if N.eqb (n / 16) 0 then acc' else hex_digits f (n / 16)%N acc'
  end.

Fixpoint zeros (n : nat) : string :=
  match n with
  | O => EmptyString
  | S n' => String "0" (zeros n')
  end.

Definition pad_left (width : nat) (s : string) : string :=
  zeros (width - String.length s) ++ s.

(** Modelled from the spec: [hex_value(value, size)] of
    [cocoasm.helpers].  An integer is rendered in upper-case hexadecimal
    on at least [size] digits (two when omitted); a string is already
    rendered; [None] stays [None]. *)
Definition render_hex (v : pyval) (size : option nat) : pyval :=
  match v with
  | PNone => PNone
  | PStr s => PStr s
  | PInt z =>
      PStr (pad_left (default 2 size)
              (hex_digits (S (N.to_nat (N.log2 (Z.to_N z)))) (Z.to_N z) EmptyString))
  end.

Definition hex_digit_value (c : ascii) : option N :=
  let n := code c in
  if between 48 57 n then Some (N.of_nat (n - 48))
  else if between 65 70 n then Some (N.of_nat (n - 55))
  else if between 97 102 n then Some (N.of_nat (n - 87))
  else None.

Fixpoint parse_hex (s : string) (acc : N) : option N :=
  match s with
  | EmptyString => Some acc
  | String c s' =>
      match hex_digit_value c with
      | Some d => parse_hex s' (acc * 16 + d)%N
      | None => None
      end
  end.

Fixpoint parse_dec (s : string) (acc : N) : option N :=
  match s with
  | EmptyString => Some acc
  | String c s' =>
      if between 48 57 (code c) then parse_dec s' (acc * 10 + N.of_nat (code c - 48))%N
      else None
  end.

(** A numeric literal: [$] and hexadecimal digits, or decimal digits. *)
Definition parse_number (s : string) : option N :=
  match s with
  | EmptyString => None
  | String "$" EmptyString => None
  | String "$" digits => parse_hex digits 0%N
  | _ => parse_dec s 0%N
  end.

(** Modelled from the spec: the tag of an operand of [cocoasm.operand]:
    empty (inherent), immediate [#value], direct [<value], extended (a
    plain value), extended indirect [[value]], or a bare symbol. *)
Inductive operand_type : Type :=
| INHERENT
| IMMEDIATE
| DIRECT
| EXTENDED
| EXTENDED_INDIRECT
| SYMBOL.

Global Instance operand_type_eq_dec : EqDecision operand_type.
Proof. solve_decision. Defined.

(** Modelled from the spec: an [Operand] of [cocoasm.operand], with its
    tag, its text and its numeric value when it has one. *)
Record operand_obj : Type := mkOperand {
  otype : operand_type;
  otext : string;
  ovalue : option N
}.

Definition drop_last (s : string) : string :=
  string_of_list_ascii (removelast (list_ascii_of_string s)).

Definition last_char (s : string) : option ascii :=
  last (list_ascii_of_string s).

Definition strip_dollar (s : string) : string :=
  match s with
  | String "$" digits => digits
  | _ => s
  end.

(** Modelled from the spec: the classifier of [cocoasm.operand], from
    the operand text to a tagged operand. *)
Definition classify (text : string) : operand_obj :=
  match text with
  | EmptyString => mkOperand INHERENT EmptyString None
  | String "#" v => mkOperand IMMEDIATE (strip_dollar v) (parse_number v)
  | String "<" v => mkOperand DIRECT (strip_dollar v) (parse_number v)
  | String "[" v =>
      let inner := drop_last v in
      mkOperand EXTENDED_INDIRECT (strip_dollar inner) (parse_number inner)
  | _ =>
      match parse_number text with
      | Some n => mkOperand EXTENDED (strip_dollar text) (Some n)
      | None => mkOperand SYMBOL text None
      end
  end.

Definition make_operand (v : pyval) : operand_obj :=
  match v with
  | PStr s => classify s
  | _ => mkOperand INHERENT EmptyString None
  end.

Definition has_type (t : operand_type) (o : operand_obj) : bool :=
  bool_decide (otype o = t).

Definition number_value (o : operand_obj) : pyval :=
  match ovalue o with
  | Some n => PInt (Z.of_N n)
  | None => PNone
  end.

(** Modelled from the spec: the opcode of each addressing mode a
    mnemonic supports, [None] for a mode it does not. *)
Record mode_obj : Type := mkMode {
  m_inh : pyval;
  m_imm : pyval;
  m_ind : pyval;
  m_dir : pyval;
  m_ext : pyval;
  m_rel : pyval
}.

(** Modelled from the spec: an instruction descriptor of
    [cocoasm.instruction]. *)
Record instruction_obj : Type := mkInstruction {
  i_mnemonic : string;
  i_mode : mode_obj;
  i_pseudo : bool;
  i_special : bool;
  i_branch : bool
}.

Definition supports (v : pyval) : bool :=
  match v with
  | PNone => false
  | _ => true
  end.

(** Modelled from the spec: a data-definition directive yields the bytes
    of its operand. *)
Definition pseudo_bytes (i : instruction_obj) (label : string)
    (o : operand_obj) (symbol_table : gmap string (Statement operand_obj)) : pyval :=
  PStr (otext o).

(** Modelled from the spec: a special instruction yields its post-byte
    from the operand. *)
Definition special_post_byte (i : instruction_obj) (o : operand_obj) : pyval :=
  number_value o.

Definition no_mode : mode_obj := mkMode PNone PNone PNone PNone PNone PNone.

(** Modelled from the spec: a few rows of the table [INSTRUCTIONS], with
    the opcodes of the 6809. *)
Definition NOP : instruction_obj :=
  mkInstruction "NOP" (mkMode (PInt 18) PNone PNone PNone PNone PNone)
    false false false.
Definition LDA : instruction_obj :=
  mkInstruction "LDA" (mkMode PNone (PInt 134) (PInt 166) (PInt 150) (PInt 182) PNone)
    false false false.
Definition LDX : instruction_obj :=
  mkInstruction "LDX" (mkMode PNone (PInt 142) (PInt 174) (PInt 158) (PInt 190) PNone)
    false false false.
Definition JMP : instruction_obj :=
  mkInstruction "JMP" (mkMode PNone PNone (PInt 110) (PInt 14) (PInt 126) PNone)
    false false false.
Definition BRA : instruction_obj :=
  mkInstruction "BRA" (mkMode PNone PNone PNone PNone PNone (PInt 32))
    false false true.
Definition FCB : instruction_obj :=
  mkInstruction "FCB" no_mode true false false.

Definition table : list instruction_obj := [NOP; LDA; LDX; JMP; BRA; FCB].

Definition table_heap : gmap loc instruction_obj :=
  list_to_map (zip (seq 0 (length table)) table).

Global Instance externals : Externals := {|
  OperandT := operand_obj;
  Operand := make_operand;
  is_symbol := has_type SYMBOL;
  is_inherent := has_type INHERENT;
  is_immediate := has_type IMMEDIATE;
  is_extended_indirect := has_type EXTENDED_INDIRECT;
  is_direct := has_type DIRECT;
  is_extended := has_type EXTENDED;
  get_string_value := fun o => PStr (otext o);
  get_immediate := number_value;
  get_extended_indirect := number_value;
  ModeT := mode_obj;
  InstructionT := instruction_obj;
  instr_mnemonic := i_mnemonic;
  is_pseudo := i_pseudo;
  is_special := i_special;
  is_branch_operation := i_branch;
  mode := i_mode;
  supports_inherent := fun m => supports (m_inh m);
  supports_immediate := fun m => supports (m_imm m);
  supports_indexed := fun m => supports (m_ind m);
  supports_direct := fun m => supports (m_dir m);
  supports_extended := fun m => supports (m_ext m);
  inh := m_inh;
  imm := m_imm;
  ind := m_ind;
  dir := m_dir;
  ext := m_ext;
  rel := m_rel;
  translate_pseudo := pseudo_bytes;
  translate_special := special_post_byte;
  INSTRUCTIONS := seq 0 (length table);
  hex_value := render_hex
|}.

(** A store holding the table and a statement object not yet
    initialised. *)
Definition blank : Statement operand_obj :=
  mkStatement true false None None (make_operand PNone) None 0 PNone None
    PNone PNone PNone PNone.

Definition start : world := mkWorld table_heap blank.

(** [Statement(line)] followed by [match_mnemonic()] and
    [translate(symbol_table)], as the assembler runs them. *)
Definition assemble (line : string)
    (symbol_table : gmap string (Statement operand_obj)) : outcome unit * world :=
  (__init__ line ;; match_mnemonic ;; translate symbol_table) start.

End SpecModel.

(** ** Sizes and shapes *)

Section Measures.

Context `{E : Externals}.

(** The number of bytes a value stands for: half the length of its
    rendering, as [translate] counts it. *)
Definition rendered_bytes (v : pyval) : nat :=
  match py_len (py_or (hex_value v None) PNone) with
  | Some n => n / 2
  | None => 0
  end.

(** The bytes of a field that is present (not [None]). *)
Definition present_bytes (v : pyval) : nat :=
  match v with
  | PNone => 0
  | _ => rendered_bytes v
  end.

(** The bytes of a field that [translate] counts (a true value). *)
Definition counted_bytes (v : pyval) : nat :=
  if truthy v then rendered_bytes v else 0.

(** The encoded length of a statement: the bytes of the opcode, the
    post-byte and the additional bytes that are present. *)
Definition encoded_length (s : Statement OperandT) : nat :=
  present_bytes (op_code s) + present_bytes (post_byte s)
  + present_bytes (additional s).

(** [hex_value] renders every true value as a non-empty string. *)
Definition renders : Prop :=
  forall v, truthy v = true ->
    exists s, hex_value v None = PStr s /\ s <> EmptyString.

(** The five operand shapes [translate] tests for, in its order. *)
Inductive shape : Type := INH | IMM | IND | DIR | EXT.

Global Instance shape_eq_dec : EqDecision shape.
Proof. solve_decision. Defined.

Definition has_shape (o : OperandT) (a : shape) : bool :=
  match a with
  | INH => is_inherent o
  | IMM => is_immediate o
  | IND => is_extended_indirect o
  | DIR => is_direct o
  | EXT => is_extended o
  end.

(** An operand of exactly one shape, and not a symbol. *)
Definition only_shape (o : OperandT) (a : shape) : Prop :=
  is_symbol o = false /\ forall b, has_shape o b = bool_decide (b = a).



(** A projection of the store is the same after a command as before. *)
Definition preserves {A T : Type} (f : world -> T) (m : M A) : Prop :=
  forall w, f (snd (m w)) = f w.

(** The statement with another size. *)
Definition with_size (s : Statement OperandT) (n : nat) : Statement OperandT :=
  mkStatement (empty s) (comment_only s) (instruction s) (label s) (operand s)
    (comment s) n (address s) (mnemonic s) (op_code s) (post_byte s)
    (additional s) (state s).

(** The statement after the last three statements of [translate]. *)
Definition tallied (s : Statement OperandT) : Statement OperandT :=
  with_size s (size s + counted_bytes (op_code s) + counted_bytes (additional s)
               + counted_bytes (post_byte s)).

(** The last three statements of [translate]. *)
Definition size_tail : M unit :=
  s1 <- get_self ;;
  when_ (truthy (op_code s1)) (add_size (get_op_codes s1)) ;;
  s2 <- get_self ;;
  when_ (truthy (additional s2)) (add_size (get_additional s2)) ;;
  s3 <- get_self ;;
  when_ (truthy (post_byte s3)) (add_size (get_post_byte s3)).

(** The fields [parse_line] fills and the flags, with the descriptor. *)
Definition parsed_fields (w : world) :=
  (empty (self w), comment_only (self w), instruction (self w), label (self w),
   operand (self w), comment (self w), address (self w), mnemonic (self w),
   state (self w)).

End Measures.

(** A blank line: nothing but white space. *)
Definition blank_line (line : string) : Prop :=
  forallb is_space (list_ascii_of_string line) = true.

(** * Properties *)

(** ** The matcher finds a match exactly when the pattern has one *)

Module ReFacts.
Import Re.

Lemma greedy_sound {R : Type} (c : cls) (k : list ascii -> list ascii -> option R)
    (s : list ascii) :
  forall taken r,
    greedy c k taken s = Some r ->
    exists t rest, s = t ++ rest /\ forallb (mem c) t = true
                   /\ k (taken ++ t) rest = Some r.
Proof.
  induction s as [|x s IH]; intros taken r; simpl.
  - intros Hk. exists [], []. by rewrite (app_nil_r taken).
  - destruct (mem c x) eqn:Hx.
    + destruct (greedy c k (taken ++ [x]) s) as [r0|] eqn:Hg.
      * intros [= <-]. destruct (IH _ _ Hg) as (t & rest & -> & Ht & Hk).
        exists (x :: t), rest. simpl. rewrite Hx, Ht.
        by rewrite <- app_assoc in Hk.
      * intros Hk. exists [], (x :: s). by rewrite (app_nil_r taken).
    + intros Hk. exists [], (x :: s). by rewrite (app_nil_r taken).
Qed.

Lemma greedy_complete {R : Type} (c : cls) (k : list ascii -> list ascii -> option R)
    (t : list ascii) :
  forall taken rest,
    forallb (mem c) t = true ->
    is_Some (k (taken ++ t) rest) ->
    is_Some (greedy c k taken (t ++ rest)).
Proof.
  induction t as [|x t IH]; intros taken rest Ht Hk.
  - rewrite app_nil_r in Hk. simpl.
    destruct rest as [|y rest]; simpl; [done|].
    destruct (mem c y); [|done].
    by destruct (greedy c k (taken ++ [y]) rest).
  - simpl in Ht. apply andb_prop in Ht as [Hx Ht]. simpl. rewrite Hx.
    assert (is_Some (greedy c k (taken ++ [x]) (t ++ rest))) as [r Hr].
    { apply IH; [done|]. by rewrite <- app_assoc. }
    by rewrite Hr.
Qed.

Lemma run_lang (p : list item) :
  forall at0 s caps, is_Some (run p at0 s caps) <-> lang p at0 s.
Proof.
  induction p as [|i p IH]; intros at0 s caps; simpl.
  - split; [done|]. by eexists.
  - destruct i as [| |c|c|c|n c].
    + destruct at0; rewrite ?IH; split; try tauto.
      * by intros [? ?].
      * by intros [[=] _].
    + destruct (at_end s); rewrite ?IH; split; try tauto.
      * by intros [? ?].
      * by intros [[=] _].
    + destruct s as [|x s].
      * split; [by intros [? ?]|]. by intros (? & ? & [=] & _).
      * destruct (mem c x) eqn:Hx.
        -- rewrite IH. split; [by eauto|]. by intros (? & ? & [= <- <-] & _ & ?).
        -- split; [by intros [? ?]|]. intros (? & ? & [= <- <-] & ? & _). congruence.
    + split.
      * intros [r Hr]. apply greedy_sound in Hr as (t & rest & -> & Ht & Hk).
        exists t, rest. split_and!; [done..|]. apply (IH _ _ caps). by eexists.
      * intros (t & rest & -> & Ht & Hl). apply greedy_complete; [done|].
        by apply IH.
    + split.
      * intros [r Hr]. apply greedy_sound in Hr as (t & rest & -> & Ht & Hk).
        simpl in Hk. destruct (is_nil t) eqn:Hn; [done|].
        exists t, rest. split_and!; [done..|]. apply (IH _ _ caps). by eexists.
      * intros (t & rest & -> & Hn & Ht & Hl). apply greedy_complete; [done|].
        simpl. rewrite Hn. by apply IH.
    + split.
      * intros [r Hr]. apply greedy_sound in Hr as (t & rest & -> & Ht & Hk).
        exists t, rest. split_and!; [done..|]. apply (IH _ _ (caps ++ [(n, t)])).
        by eexists.
      * intros (t & rest & -> & Ht & Hl). apply greedy_complete; [done|].
        by apply IH.
Qed.

Lemma re_match_matches (p : list item) (text : string) :
  is_Some (re_match p text) <-> matches p text.
Proof. apply run_lang. Qed.

Lemma search_from_spec (p : list item) (s : list ascii) :
  forall at0,
    is_Some (search_from p at0 s) <->
    exists pre suf, s = pre ++ suf /\ lang p (at0 && is_nil pre) suf.
Proof.
  induction s as [|x s IH]; intros at0; simpl.
  - destruct (run p at0 [] []) as [r|] eqn:Hr.
    + split; [|by eexists]. intros _. exists [], []. split; [done|].
      rewrite andb_true_r. apply (run_lang p at0 [] []). by rewrite Hr.
    + split; [by intros [? ?]|]. intros (pre & suf & Hs & Hl).
      symmetry in Hs. apply app_eq_nil in Hs as [-> ->].
      rewrite andb_true_r in Hl. apply (run_lang p at0 [] []) in Hl.
      rewrite Hr in Hl. by destruct Hl.
  - destruct (run p at0 (x :: s) []) as [r|] eqn:Hr.
    + split; [|by eexists]. intros _. exists [], (x :: s). split; [done|].
      rewrite andb_true_r. apply (run_lang p at0 _ []). by rewrite Hr.
    + rewrite IH. split.
      * intros (pre & suf & -> & Hl). exists (x :: pre), suf. split; [done|].
        simpl. by rewrite andb_false_r.
      * intros (pre & suf & Hs & Hl). destruct pre as [|y pre].
        -- simpl in Hs. subst suf. rewrite andb_true_r in Hl.
           apply (run_lang p at0 _ []) in Hl. rewrite Hr in Hl. by destruct Hl.
        -- simpl in Hs. injection Hs as <- ->. exists pre, suf. split; [done|].
           simpl in Hl. by rewrite andb_false_r in Hl.
Qed.

End ReFacts.

Lemma blank_search (line : string) :
  is_Some (Re.re_search BLANK_LINE_REGEX line) <-> blank_line line.
Proof.
  unfold Re.re_search, blank_line. rewrite ReFacts.search_from_spec. split.
  - intros (pre & suf & Hs & Hl). simpl in Hl.
    destruct Hl as (Hpre & t & r & -> & Ht & Hend & _).
    destruct pre; [|done]. simpl in Hs. rewrite Hs.
    change (forallb is_space t = true) in Ht.
    rewrite forallb_app, Ht. simpl.
    destruct r as [|c [|? ?]]; simpl in *; try done.
    apply Nat.eqb_eq in Hend. unfold is_space. rewrite Hend. reflexivity.
  - intros Hb. exists [], (list_ascii_of_string line). split; [done|].
    simpl. split; [done|]. exists (list_ascii_of_string line), [].
    rewrite app_nil_r. split_and!; done.
Qed.

Example asm_line_example :
  Re.re_match ASM_LINE_REGEX "LOOP    LDA     #$05        ; load"
  = Some [("label", list_ascii_of_string "LOOP");
          ("mnemonic", list_ascii_of_string "LDA");
          ("operands", list_ascii_of_string "#$05");
          ("comment", list_ascii_of_string " load")].
Proof. vm_compute. reflexivity. Qed.

(** ** Parsing *)

Section Parsing.

Context `{E : Externals}.

(** What [__init__] leaves in [self] before it calls [parse_line]. *)
Definition fresh_statement : Statement OperandT :=
  mkStatement true false None None (Operand PNone) None 0
    (hex_value (PInt 0) (Some 4)) None PNone PNone PNone PNone.

Lemma init_then_parse (line : string) (w : world) :
  __init__ line w = parse_line line (mkWorld (heap w) fresh_statement).
Proof. reflexivity. Qed.

Lemma parse_line_blank (line : string) (w : world) :
  blank_line line -> parse_line line w = (Next tt, w).
Proof.
  intros Hb. apply blank_search in Hb.
  unfold parse_line, call, bind, when_.
  rewrite (bool_decide_eq_true_2 _ Hb). by destruct w.
Qed.

Lemma parse_line_not_blank (line : string) :
  ~ blank_line line ->
  bool_decide (is_Some (Re.re_search BLANK_LINE_REGEX line)) = false.
Proof.
  intros Hb. apply bool_decide_eq_false_2. by rewrite blank_search.
Qed.

(** No line of the three shapes. *)
Definition unparsable (line : string) : Prop :=
  ~ blank_line line /\ ~ Re.matches COMMENT_LINE_REGEX line
  /\ ~ Re.matches ASM_LINE_REGEX line.

End Parsing.

(** ** The store around a command *)

Section Frames.

Context `{E : Externals}.
Context {T : Type} (f : world -> T).

Lemma preserves_ret {A} (a : A) : preserves f (ret a).
Proof. by intros w. Qed.

Lemma preserves_raise {A} (e : exn) : preserves f (raise (A:=A) e).
Proof. by intros w. Qed.

Lemma preserves_return {A} : preserves f (return_ (A:=A)).
Proof. by intros w. Qed.

Lemma preserves_get_self : preserves f get_self.
Proof. by intros w. Qed.

Lemma preserves_bind {A B} (m : M A) (k : A -> M B) :
  preserves f m -> (forall a, preserves f (k a)) -> preserves f (bind m k).
Proof.
  intros Hm Hk w. unfold bind. specialize (Hm w).
  destruct (m w) as [[a| |e] w']; simpl in *; [|done..].
  by rewrite Hk.
Qed.

Lemma preserves_when (c : bool) (m : M unit) :
  preserves f m -> preserves f (when_ c m).
Proof. intros Hm. destruct c; [done|]. apply preserves_ret. Qed.

Lemma preserves_call (m : M unit) : preserves f m -> preserves f (call m).
Proof.
  intros Hm w. unfold call. specialize (Hm w).
  by destruct (m w) as [[a| |e] w'].
Qed.

Lemma preserves_self_instruction : preserves f self_instruction.
Proof.
  intros w. unfold self_instruction.
  destruct (instruction (self w)); [|done]. by destruct (heap w !! _).
Qed.

Lemma preserves_modify (g : Statement OperandT -> Statement OperandT) :
  (forall w, f (mkWorld (heap w) (g (self w))) = f w) ->
  preserves f (modify_self g).
Proof. intros Hg w. apply Hg. Qed.

End Frames.

(** ** Translation *)

Section Translation.

Context `{E : Externals}.

Abbreviation Stmt := (Statement OperandT).

Ltac frame :=
  repeat first
    [ apply preserves_ret | apply preserves_raise | apply preserves_return
    | apply preserves_get_self | apply preserves_self_instruction
    | apply preserves_call | apply preserves_when
    | apply preserves_bind; [|intros]
    | apply preserves_modify; intros; reflexivity
    | match goal with
      | |- preserves _ (if ?c then _ else _) => destruct c
      | |- preserves _ (match ?x with _ => _ end) => destruct x
      | |- preserves _ (let _ := _ in _) => cbv zeta
      end ].

Lemma add_size_keeps_heap (r : pyval) : preserves heap (add_size r).
Proof. unfold add_size, set_size. frame. Qed.

Lemma add_size_keeps_parsed (r : pyval) : preserves parsed_fields (add_size r).
Proof. unfold add_size, set_size. frame. Qed.

Lemma translate_keeps_heap (symbol_table : gmap string Stmt) :
  preserves heap (translate symbol_table).
Proof.
  unfold translate, set_op_code, set_additional, set_post_byte.
  frame; apply add_size_keeps_heap.
Qed.

Lemma translate_keeps_parsed (symbol_table : gmap string Stmt) :
  preserves parsed_fields (translate symbol_table).
Proof.
  unfold translate, set_op_code, set_additional, set_post_byte.
  frame; apply add_size_keeps_parsed.
Qed.

Lemma rendered_length (v : pyval) :
  renders -> truthy v = true ->
  exists n, py_len (py_or (hex_value v None) PNone) = Some n
            /\ rendered_bytes v = n / 2.
Proof.
  intros Hr Hv. destruct (Hr v Hv) as (s & Hs & Hne).
  exists (String.length s). unfold rendered_bytes. rewrite Hs.
  unfold py_or. simpl. destruct s; [done|]. simpl. done.
Qed.

Lemma when_add_size (v : pyval) (w : world) :
  renders ->
  when_ (truthy v) (add_size (py_or (hex_value v None) PNone)) w
  = (Next tt,
     mkWorld (heap w) (with_size (self w) (size (self w) + counted_bytes v))).
Proof.
  intros Hr. destruct w as [h s]. unfold when_, counted_bytes.
  destruct (truthy v) eqn:Hv.
  - destruct (rendered_length _ Hr Hv) as (n & Hn & ->).
    unfold add_size. by rewrite Hn.
  - unfold ret, with_size. destruct s. simpl. by rewrite Nat.add_0_r.
Qed.

Lemma size_tail_run (w : world) :
  renders -> size_tail w = (Next tt, mkWorld (heap w) (tallied (self w))).
Proof.
  intros Hr. destruct w as [h s].
  unfold size_tail, get_op_codes, get_additional, get_post_byte.
  unfold bind at 1. unfold get_self at 1. cbv beta iota.
  unfold bind at 1. rewrite (when_add_size _ _ Hr). cbv beta iota.
  unfold bind at 1. unfold get_self at 1. cbv beta iota.
  unfold bind at 1. rewrite (when_add_size _ _ Hr). cbv beta iota.
  unfold bind at 1. unfold get_self at 1. cbv beta iota.
  rewrite (when_add_size _ _ Hr). simpl.
  unfold tallied, with_size. simpl. done.
Qed.

Ltac run_translate :=
  unfold translate; fold size_tail;
  unfold call, self_instruction, when_, ret, raise, return_, get_self,
    set_op_code, set_additional, set_post_byte, modify_self.

Ltac step := unfold bind at 1; cbv beta iota zeta.

Ltac use_hyps :=
  repeat match goal with
    | H : _ = true |- _ => rewrite H
    | H : _ = false |- _ => rewrite H
    | H : _ = Some _ |- _ => rewrite H
    | H : _ = None |- _ => rewrite H
    end.

Ltac exec := repeat (step; simpl; use_hyps).

(** C4. A symbol operand that the symbol table does not hold, for an
    instruction that is neither a pseudo operation nor special:
    [translate] raises a [TranslationError] whose message holds the
    symbol, and the statement is left as it was. *)
Theorem unknown_symbol_fails (symbol_table : gmap string Stmt) (w : world)
    (l : loc) (i : InstructionT) :
  instruction (self w) = Some l ->
  heap w !! l = Some i ->
  is_pseudo i = false ->
  is_special i = false ->
  is_symbol (operand (self w)) = true ->
  lookup_symbol (get_string_value (operand (self w))) symbol_table = None ->
  translate symbol_table w
  = (Raised (TranslationError
       ("Unknown symbol [" ++ py_format (get_string_value (operand (self w))) ++ "]")),
     w).
Proof.
  intros Hl Hi Hp Hs Hsym Hlook. destruct w as [h s]. simpl in *.
  run_translate. step. simpl. rewrite Hl, Hi. exec. reflexivity.
Qed.

(** C6. An operand that is extended indirect and nothing else, for an
    instruction that is neither a pseudo operation, nor special, nor a
    branch: when the instruction supports indexed addressing, [translate]
    returns with the indexed opcode, the target of the operand as
    additional bytes and the post-byte [0x9F], whatever the operand holds;
    when it does not, [translate] raises a [TranslationError] whose
    message names the mnemonic, and leaves the statement as it was. *)
Theorem extended_indirect_translation (symbol_table : gmap string Stmt)
    (w : world) (l : loc) (i : InstructionT) :
  instruction (self w) = Some l ->
  heap w !! l = Some i ->
  is_pseudo i = false ->
  is_special i = false ->
  is_branch_operation i = false ->
  only_shape (operand (self w)) IND ->
  (supports_indexed (mode i) = true -> renders ->
   exists w', translate symbol_table w = (Next tt, w')
     /\ op_code (self w') = ind (mode i)
     /\ additional (self w') = get_extended_indirect (operand (self w))
     /\ post_byte (self w') = PInt 159)
  /\ (supports_indexed (mode i) = false ->
      translate symbol_table w
      = (Raised (TranslationError
           ("Instruction [" ++ format_opt (mnemonic (self w))
            ++ "] does not support indexed addressing")), w)).
Proof.
  intros Hl Hi Hp Hs Hb [Hsym Hshape].
  pose proof (Hshape INH) as Hinh. pose proof (Hshape IMM) as Himm.
  pose proof (Hshape IND) as Hind. pose proof (Hshape DIR) as Hdir.
  pose proof (Hshape EXT) as Hext. clear Hshape. simpl in *.
  destruct w as [h s]. simpl in *. split.
  - intros Hsup Hr. eexists. run_translate. step. simpl. rewrite Hl, Hi.
    exec. rewrite (size_tail_run _ Hr). split; [reflexivity|]. by simpl.
  - intros Hsup. run_translate. step. simpl. rewrite Hl, Hi.
    exec. reflexivity.
Qed.

(** What [translate] does with an operand that is immediate and nothing
    else, when the instruction has an immediate mode. *)
Lemma immediate_operand_run (symbol_table : gmap string Stmt)
    (w : world) (l : loc) (i : InstructionT) :
  instruction (self w) = Some l ->
  heap w !! l = Some i ->
  is_pseudo i = false ->
  is_special i = false ->
  is_branch_operation i = false ->
  only_shape (operand (self w)) IMM ->
  supports_immediate (mode i) = true ->
  renders ->
  exists w', translate symbol_table w = (Next tt, w')
    /\ op_code (self w') = imm (mode i)
    /\ additional (self w') = get_immediate (operand (self w))
    /\ post_byte (self w') = post_byte (self w)
    /\ size (self w')
       = size (self w) + counted_bytes (imm (mode i))
         + counted_bytes (get_immediate (operand (self w)))
         + counted_bytes (post_byte (self w)).
Proof.
  intros Hl Hi Hp Hs Hb [Hsym Hshape] Hsup Hr.
  pose proof (Hshape INH) as Hinh. pose proof (Hshape IMM) as Himm.
  pose proof (Hshape IND) as Hind. pose proof (Hshape DIR) as Hdir.
  pose proof (Hshape EXT) as Hext. clear Hshape. simpl in *.
  destruct w as [h s]. simpl in *.
  eexists. run_translate. step. simpl. rewrite Hl, Hi.
  exec. rewrite (size_tail_run _ Hr). split; [reflexivity|]. by simpl.
Qed.

(** The three early returns of [translate] leave [size] as it was. *)
Lemma early_return_leaves_size (symbol_table : gmap string Stmt)
    (w : world) (l : loc) (i : InstructionT) :
  instruction (self w) = Some l ->
  heap w !! l = Some i ->
  (is_pseudo i = true ->
   exists w', translate symbol_table w = (Next tt, w')
     /\ additional (self w')
        = translate_pseudo i (get_label (self w)) (operand (self w)) symbol_table
     /\ size (self w') = size (self w))
  /\ (is_pseudo i = false -> is_special i = true ->
      exists w', translate symbol_table w = (Next tt, w')
        /\ post_byte (self w') = translate_special i (operand (self w))
        /\ size (self w') = size (self w))
  /\ (is_pseudo i = false -> is_special i = false ->
      is_symbol (operand (self w)) = false -> is_branch_operation i = true ->
      exists w', translate symbol_table w = (Next tt, w')
        /\ op_code (self w') = rel (mode i)
        /\ size (self w') = size (self w)).
Proof.
  intros Hl Hi. destruct w as [h s]. simpl in *. split_and!.
  - intros Hp. eexists. run_translate. step. simpl. rewrite Hl, Hi. exec.
    split; [reflexivity|]. by simpl.
  - intros Hp Hs. eexists. run_translate. step. simpl. rewrite Hl, Hi. exec.
    split; [reflexivity|]. by simpl.
  - intros Hp Hs Hsym Hb. eexists. run_translate. step. simpl.
    rewrite Hl, Hi. exec. split; [reflexivity|]. by simpl.
Qed.

(** C10. For an instruction that is neither a pseudo operation nor
    special, [translate] assigns to [op_code], [post_byte], [additional]
    and [size] only: the flags, the descriptor, the label, the operand,
    the comment, the address and the mnemonic of the statement are after
    the call what they were before it, however the call ends. *)
Theorem translate_writes_encoding_only (symbol_table : gmap string Stmt)
    (w : world) (l : loc) (i : InstructionT) :
  instruction (self w) = Some l ->
  heap w !! l = Some i ->
  is_pseudo i = false ->
  is_special i = false ->
  let s' := self (snd (translate symbol_table w)) in
  label s' = label (self w) /\ mnemonic s' = mnemonic (self w)
  /\ comment s' = comment (self w) /\ address s' = address (self w)
  /\ operand s' = operand (self w) /\ empty s' = empty (self w)
  /\ comment_only s' = comment_only (self w)
  /\ instruction s' = instruction (self w) /\ state s' = state (self w).
Proof.
  intros _ _ _ _. pose proof (translate_keeps_parsed symbol_table w) as H.
  unfold parsed_fields in H. simpl. by simplify_eq.
Qed.



(** *** One addressing mode at a time *)

(** What the descriptor holds for a shape of operand: whether the mode
    is supported, and its opcode. *)
Definition supports_shape (a : shape) (m : ModeT) : bool :=
  match a with
  | INH => supports_inherent m
  | IMM => supports_immediate m
  | IND => supports_indexed m
  | DIR => supports_direct m
  | EXT => supports_extended m
  end.

Definition opcode_of (a : shape) (m : ModeT) : pyval :=
  match a with
  | INH => inh m
  | IMM => imm m
  | IND => ind m
  | DIR => dir m
  | EXT => ext m
  end.

(** What [translate] assigns to [additional] and to [post_byte] for a
    shape of operand; [old] is the attribute before the call. *)
Definition operand_bytes (a : shape) (o : OperandT) (old : pyval) : pyval :=
  match a with
  | INH => old
  | IMM => get_immediate o
  | IND => get_extended_indirect o
  | DIR | EXT => get_string_value o
  end.

Definition post_byte_of (a : shape) (old : pyval) : pyval :=
  match a with
  | IND => PInt 159
  | _ => old
  end.

(** The end of the message of the error raised for a mode that the
    instruction does not support. *)
Definition refusal (a : shape) : string :=
  match a with
  | INH => "] requires an operand"
  | IMM => "] does not support immediate addressing"
  | IND => "] does not support indexed addressing"
  | DIR => "] does not support direct addressing"
  | EXT => "] does not support extended addressing"
  end.

(** The statement with the encoding of a shape of operand. *)
Definition encoded (a : shape) (i : InstructionT) (s : Stmt) : Stmt :=
  mkStatement (empty s) (comment_only s) (instruction s) (label s) (operand s)
    (comment s) (size s) (address s) (mnemonic s) (opcode_of a (mode i))
    (post_byte_of a (post_byte s)) (operand_bytes a (operand s) (additional s))
    (state s).

Ltac shapes H :=
  let H1 := fresh in let H2 := fresh in let H3 := fresh in
  let H4 := fresh in let H5 := fresh in
  pose proof (H INH) as H1; pose proof (H IMM) as H2;
  pose proof (H IND) as H3; pose proof (H DIR) as H4;
  pose proof (H EXT) as H5; clear H; simpl in *.

Lemma mode_run (symbol_table : gmap string Stmt) (w : world) (l : loc)
    (i : InstructionT) (a : shape) :
  instruction (self w) = Some l ->
  heap w !! l = Some i ->
  is_pseudo i = false ->
  is_special i = false ->
  is_branch_operation i = false ->
  only_shape (operand (self w)) a ->
  supports_shape a (mode i) = true ->
  renders ->
  translate symbol_table w
  = (Next tt, mkWorld (heap w) (tallied (encoded a i (self w)))).
Proof.
  intros Hl Hi Hp Hs Hb [Hsym Hshape] Hsup Hr. shapes Hshape.
  destruct w as [h s]. simpl in *.
  destruct a; simpl in *; run_translate; step; simpl; rewrite Hl, Hi; exec;
    rewrite (size_tail_run _ Hr); unfold encoded; simpl; rewrite ?Hl;
    reflexivity.
Qed.

(** X11. An operand of one shape only, for an instruction that supports the
    mode and is neither a pseudo operation, nor special, nor a branch:
    [translate] returns; the opcode is the opcode of the mode; the
    additional bytes are the immediate value, the extended indirect
    target or the text of the operand (what they were for no operand);
    the post-byte is [0x9F] for extended indirect and what it was
    otherwise; and [size] has grown by the bytes of those of the three
    that are true values. *)
Theorem supported_mode_translation (symbol_table : gmap string Stmt)
    (w : world) (l : loc) (i : InstructionT) (a : shape) :
  instruction (self w) = Some l ->
  heap w !! l = Some i ->
  is_pseudo i = false ->
  is_special i = false ->
  is_branch_operation i = false ->
  only_shape (operand (self w)) a ->
  supports_shape a (mode i) = true ->
  renders ->
  exists w', translate symbol_table w = (Next tt, w')
    /\ heap w' = heap w
    /\ op_code (self w') = opcode_of a (mode i)
    /\ additional (self w')
       = operand_bytes a (operand (self w)) (additional (self w))
    /\ post_byte (self w') = post_byte_of a (post_byte (self w))
    /\ size (self w')
       = size (self w) + counted_bytes (op_code (self w'))
         + counted_bytes (additional (self w'))
         + counted_bytes (post_byte (self w')).
Proof.
  intros Hl Hi Hp Hs Hb Hshape Hsup Hr.
  eexists. split; [by apply (mode_run _ _ l i a)|]. by simpl.
Qed.

(** X12. An operand of one shape only, for an instruction that does not
    support the mode: [translate] raises a [TranslationError] whose
    message names the mnemonic and the mode, and the statement is left
    as it was. *)
Theorem unsupported_mode_fails (symbol_table : gmap string Stmt) (w : world)
    (l : loc) (i : InstructionT) (a : shape) :
  instruction (self w) = Some l ->
  heap w !! l = Some i ->
  is_pseudo i = false ->
  is_special i = false ->
  is_branch_operation i = false ->
  only_shape (operand (self w)) a ->
  supports_shape a (mode i) = false ->
  translate symbol_table w
  = (Raised (TranslationError
       ("Instruction [" ++ format_opt (mnemonic (self w)) ++ refusal a)), w).
Proof.
  intros Hl Hi Hp Hs Hb [Hsym Hshape] Hsup. shapes Hshape.
  destruct w as [h s]. simpl in *.
  destruct a; simpl in *; run_translate; step; simpl; rewrite Hl, Hi; exec;
    reflexivity.
Qed.

(** X17. [translate] called a second time on the statement it has translated
    sets the same opcode, additional bytes and post-byte, and adds their
    bytes to [size] once more: [size] is not reset. *)
Theorem translate_again_adds_size (symbol_table : gmap string Stmt)
    (w : world) (l : loc) (i : InstructionT) (a : shape) :
  instruction (self w) = Some l ->
  heap w !! l = Some i ->
  is_pseudo i = false ->
  is_special i = false ->
  is_branch_operation i = false ->
  only_shape (operand (self w)) a ->
  supports_shape a (mode i) = true ->
  renders ->
  exists w1 w2 n,
    translate symbol_table w = (Next tt, w1)
    /\ translate symbol_table w1 = (Next tt, w2)
    /\ op_code (self w2) = op_code (self w1)
    /\ additional (self w2) = additional (self w1)
    /\ post_byte (self w2) = post_byte (self w1)
    /\ n = counted_bytes (op_code (self w1))
           + counted_bytes (additional (self w1))
           + counted_bytes (post_byte (self w1))
    /\ size (self w1) = size (self w) + n
    /\ size (self w2) = size (self w) + 2 * n.
Proof.
  intros Hl Hi Hp Hs Hb Hshape Hsup Hr.
  pose proof (mode_run symbol_table w l i a Hl Hi Hp Hs Hb Hshape Hsup Hr) as H1.
  set (w1 := mkWorld (heap w) (tallied (encoded a i (self w)))) in *.
  pose proof (mode_run symbol_table w1 l i a Hl Hi Hp Hs Hb Hshape Hsup Hr) as H2.
  eexists w1, _, _. split; [exact H1|]. split; [exact H2|].
  subst w1. split_and!; [by destruct a..|reflexivity| |];
    destruct a; simpl; lia.
Qed.

(** X18. An opcode of value 0 is stored in the statement, and its byte is not
    counted in [size]: the test [if self.op_code] takes 0 for false. *)
Theorem zero_opcode_not_counted (symbol_table : gmap string Stmt)
    (w : world) (l : loc) (i : InstructionT) (a : shape) :
  instruction (self w) = Some l ->
  heap w !! l = Some i ->
  is_pseudo i = false ->
  is_special i = false ->
  is_branch_operation i = false ->
  only_shape (operand (self w)) a ->
  supports_shape a (mode i) = true ->
  renders ->
  opcode_of a (mode i) = PInt 0 ->
  exists w', translate symbol_table w = (Next tt, w')
    /\ op_code (self w') = PInt 0
    /\ size (self w')
       = size (self w) + counted_bytes (additional (self w'))
         + counted_bytes (post_byte (self w')).
Proof.
  intros Hl Hi Hp Hs Hb Hshape Hsup Hr Hz.
  eexists. split; [by apply (mode_run _ _ l i a)|]. simpl.
  rewrite Hz. split; [done|]. unfold counted_bytes at 1. simpl. lia.
Qed.

(** X13. For a pseudo operation, [translate] is the assignment of what
    [translate_pseudo] returns to [additional], and nothing else: no
    symbol is looked up, no opcode is set, [size] is not touched.  For a
    special instruction that is no pseudo operation, it is the
    assignment of what [translate_special] returns to [post_byte]. *)
Theorem pseudo_and_special_translation (symbol_table : gmap string Stmt)
    (w : world) (l : loc) (i : InstructionT) :
  instruction (self w) = Some l ->
  heap w !! l = Some i ->
  (is_pseudo i = true ->
   translate symbol_table w
   = set_additional
       (translate_pseudo i (get_label (self w)) (operand (self w)) symbol_table) w)
  /\ (is_pseudo i = false -> is_special i = true ->
      translate symbol_table w
      = set_post_byte (translate_special i (operand (self w))) w).
Proof.
  intros Hl Hi. destruct w as [h s]. simpl in *. split.
  - intros Hp. run_translate. step. simpl. rewrite Hl, Hi. exec.
    rewrite ?Hl. reflexivity.
  - intros Hp Hs. run_translate. step. simpl. rewrite Hl, Hi. exec.
    rewrite ?Hl. reflexivity.
Qed.

(** *** Symbols *)

(** The store with another operand in the statement. *)
Definition with_operand (o : OperandT) (w : world) : world :=
  mkWorld (heap w)
    (mkStatement (empty (self w)) (comment_only (self w)) (instruction (self w))
       (label (self w)) o (comment (self w)) (size (self w)) (address (self w))
       (mnemonic (self w)) (op_code (self w)) (post_byte (self w))
       (additional (self w)) (state (self w))).

(** A command that neither reads nor writes [self.operand]. *)
Definition operand_blind {A : Type} (m : M A) : Prop :=
  forall o w, m (with_operand o w) = (fst (m w), with_operand o (snd (m w))).

(** What [translate] does once the operand is known: from the test for
    a branch to the end.  [name] is [self.mnemonic]. *)
Definition encode (i : InstructionT) (name : option string) (operand : OperandT)
    : M unit :=
  when_ (is_branch_operation i)
    (set_op_code (rel (mode i)) ;;
     return_) ;;
  when_ (is_inherent operand)
    (if supports_inherent (mode i) then set_op_code (inh (mode i))
     else raise (TranslationError
            ("Instruction [" ++ format_opt name ++ "] requires an operand"))) ;;
  when_ (is_immediate operand)
    (if supports_immediate (mode i) then
       set_op_code (imm (mode i)) ;;
       set_additional (get_immediate operand)
     else raise (TranslationError
            ("Instruction [" ++ format_opt name
             ++ "] does not support immediate addressing"))) ;;
  when_ (is_extended_indirect operand)
    (if supports_indexed (mode i) then
       set_op_code (ind (mode i)) ;;
       set_additional (get_extended_indirect operand) ;;
       set_post_byte (PInt 159)
     else raise (TranslationError
            ("Instruction [" ++ format_opt name
             ++ "] does not support indexed addressing"))) ;;
  when_ (is_direct operand)
    (if supports_direct (mode i) then
       set_op_code (dir (mode i)) ;;
       set_additional (get_string_value operand)
     else raise (TranslationError
            ("Instruction [" ++ format_opt name
             ++ "] does not support direct addressing"))) ;;
  when_ (is_extended operand)
    (if supports_extended (mode i) then
       set_op_code (ext (mode i)) ;;
       set_additional (get_string_value operand)
     else raise (TranslationError
            ("Instruction [" ++ format_opt name
             ++ "] does not support extended addressing"))) ;;
  size_tail.

Lemma translate_encode (symbol_table : gmap string Stmt) :
  translate symbol_table
  = call (
      i <- self_instruction ;;
      s <- get_self ;;
      when_ (is_pseudo i)
        (set_additional (translate_pseudo i (get_label s) (operand s) symbol_table) ;;
         return_) ;;
      when_ (is_special i)
        (set_post_byte (translate_special i (operand s)) ;;
         return_) ;;
      operand <-
        (let operand := operand s in
         if is_symbol operand then
           let symbol := get_string_value operand in
           match lookup_symbol symbol symbol_table with
           | None =>
               raise (TranslationError ("Unknown symbol [" ++ py_format symbol ++ "]"))
           | Some target =>
               let operand := Operand (get_address target) in
               if truthy (get_string_value operand) then ret operand else return_
           end
         else ret operand) ;;
      encode i (mnemonic s) operand).
Proof. reflexivity. Qed.

Lemma blind_ret {A} (a : A) : operand_blind (ret a).
Proof. by intros o w. Qed.

Lemma blind_raise {A} (e : exn) : operand_blind (raise (A:=A) e).
Proof. by intros o w. Qed.

Lemma blind_return {A} : operand_blind (return_ (A:=A)).
Proof. by intros o w. Qed.

Lemma blind_bind {A B} (m : M A) (k : A -> M B) :
  operand_blind m -> (forall a, operand_blind (k a)) -> operand_blind (bind m k).
Proof.
  intros Hm Hk o w. unfold bind. rewrite Hm.
  destruct (m w) as [[a| |e] w']; simpl; [|done..]. apply Hk.
Qed.

Lemma blind_when (c : bool) (m : M unit) :
  operand_blind m -> operand_blind (when_ c m).
Proof. intros Hm. destruct c; [done|]. apply blind_ret. Qed.

Lemma blind_call (m : M unit) : operand_blind m -> operand_blind (call m).
Proof.
  intros Hm o w. unfold call. rewrite Hm. by destruct (m w) as [[a| |e] w'].
Qed.

Lemma blind_modify (f : Stmt -> Stmt) :
  (forall o w, mkWorld (heap w) (f (self (with_operand o w)))
               = with_operand o (mkWorld (heap w) (f (self w)))) ->
  operand_blind (modify_self f).
Proof.
  intros Hf o w. unfold modify_self.
  change (heap (with_operand o w)) with (heap w). by rewrite Hf.
Qed.

Lemma blind_get {B} (k : Stmt -> M B) :
  (forall s, operand_blind (k s)) ->
  (forall o w, k (self (with_operand o w)) = k (self w)) ->
  operand_blind (bind get_self k).
Proof.
  intros Hk Hsame o w. unfold bind, get_self. rewrite Hsame. apply Hk.
Qed.

Ltac blind :=
  repeat first
    [ apply blind_ret | apply blind_raise | apply blind_return
    | apply blind_when | apply blind_call
    | apply blind_modify; intros; reflexivity
    | apply blind_get; [intros|intros; reflexivity]
    | apply blind_bind; [|intros]
    | match goal with
      | |- operand_blind (if ?c then _ else _) => destruct c
      | |- operand_blind (match ?x with _ => _ end) => destruct x
      end ].

Lemma add_size_blind (r : pyval) : operand_blind (add_size r).
Proof. unfold add_size, set_size. blind. Qed.

Lemma encode_blind (i : InstructionT) (name : option string) (o : OperandT) :
  operand_blind (encode i name o).
Proof.
  unfold encode, set_op_code, set_additional, set_post_byte.
  blind; apply add_size_blind.
Qed.

Lemma encode_keeps_operand (i : InstructionT) (name : option string)
    (o : OperandT) :
  preserves (fun w => operand (self w)) (encode i name o).
Proof.
  unfold encode, size_tail, set_op_code, set_additional, set_post_byte.
  frame; unfold add_size, set_size; frame.
Qed.

Ltac run_prefix :=
  unfold call, self_instruction, when_, ret, raise, return_, get_self,
    set_additional, set_post_byte, modify_self.

Lemma with_operand_back (o : OperandT) (w w' : world) :
  operand (self w') = operand (self w) ->
  with_operand (operand (self w)) (with_operand o w') = w'.
Proof. intros <-. by destruct w' as [h []]. Qed.

(** X15. A symbol that the table holds is translated as the address it stands
    for: when the operand made of that address is not itself a symbol (and
    has a text), [translate] ends as it does on the statement that has
    this operand in place of the symbol, with the same opcode, post-byte,
    additional bytes and size; the statement keeps the symbol as its
    operand. *)
Theorem symbol_operand_substitution (symbol_table : gmap string Stmt)
    (w : world) (l : loc) (i : InstructionT) (target : Stmt) :
  instruction (self w) = Some l ->
  heap w !! l = Some i ->
  is_pseudo i = false ->
  is_special i = false ->
  is_symbol (operand (self w)) = true ->
  lookup_symbol (get_string_value (operand (self w))) symbol_table = Some target ->
  truthy (get_string_value (Operand (get_address target))) = true ->
  is_symbol (Operand (get_address target)) = false ->
  let r := translate symbol_table (with_operand (Operand (get_address target)) w) in
  translate symbol_table w = (fst r, with_operand (operand (self w)) (snd r)).
Proof.
  intros Hl Hi Hp Hs Hsym Hlook Htrue Hnot.
  set (o' := Operand (get_address target)) in *.
  assert (translate symbol_table w = call (encode i (mnemonic (self w)) o') w)
    as ->.
  { rewrite translate_encode. destruct w as [h s]. simpl in *. run_prefix.
    step. simpl. rewrite Hl, Hi. exec. fold o'. rewrite Htrue. reflexivity. }
  assert (translate symbol_table (with_operand o' w)
          = call (encode i (mnemonic (self w)) o') (with_operand o' w)) as ->.
  { rewrite translate_encode. destruct w as [h s]. simpl in *. run_prefix.
    step. simpl. rewrite Hl, Hi. exec. reflexivity. }
  cbv zeta. rewrite (blind_call _ (encode_blind _ _ _)). simpl.
  rewrite with_operand_back; [by destruct (call _ w)|].
  apply (preserves_call (fun w => operand (self w))), encode_keeps_operand.
Qed.

(** *** The size on the main path *)

(** A command that does not end in [return]. *)
Definition falls_through {A : Type} (m : M A) : Prop :=
  forall w, fst (m w) <> Returned.

(** The tests of the five shapes of operand, in the order of
    [translate]. *)
Definition dispatch (i : InstructionT) (name : option string) (operand : OperandT)
    : M unit :=
  when_ (is_inherent operand)
    (if supports_inherent (mode i) then set_op_code (inh (mode i))
     else raise (TranslationError
            ("Instruction [" ++ format_opt name ++ "] requires an operand"))) ;;
  when_ (is_immediate operand)
    (if supports_immediate (mode i) then
       set_op_code (imm (mode i)) ;;
       set_additional (get_immediate operand)
     else raise (TranslationError
            ("Instruction [" ++ format_opt name
             ++ "] does not support immediate addressing"))) ;;
  when_ (is_extended_indirect operand)
    (if supports_indexed (mode i) then
       set_op_code (ind (mode i)) ;;
       set_additional (get_extended_indirect operand) ;;
       set_post_byte (PInt 159)
     else raise (TranslationError
            ("Instruction [" ++ format_opt name
             ++ "] does not support indexed addressing"))) ;;
  when_ (is_direct operand)
    (if supports_direct (mode i) then
       set_op_code (dir (mode i)) ;;
       set_additional (get_string_value operand)
     else raise (TranslationError
            ("Instruction [" ++ format_opt name
             ++ "] does not support direct addressing"))) ;;
  when_ (is_extended operand)
    (if supports_extended (mode i) then
       set_op_code (ext (mode i)) ;;
       set_additional (get_string_value operand)
     else raise (TranslationError
            ("Instruction [" ++ format_opt name
             ++ "] does not support extended addressing"))).

Lemma falls_ret {A} (a : A) : falls_through (ret a).
Proof. by intros w. Qed.

Lemma falls_raise {A} (e : exn) : falls_through (raise (A:=A) e).
Proof. by intros w. Qed.

Lemma falls_modify (f : Stmt -> Stmt) : falls_through (modify_self f).
Proof. by intros w. Qed.

Lemma falls_bind {A B} (m : M A) (k : A -> M B) :
  falls_through m -> (forall a, falls_through (k a)) -> falls_through (bind m k).
Proof.
  intros Hm Hk w. unfold bind. specialize (Hm w).
  destruct (m w) as [[a| |e] w']; simpl in *; [apply Hk|done..].
Qed.

Lemma falls_when (c : bool) (m : M unit) :
  falls_through m -> falls_through (when_ c m).
Proof. intros Hm. destruct c; [done|]. apply falls_ret. Qed.

Lemma dispatch_falls (i : InstructionT) (name : option string) (o : OperandT) :
  falls_through (dispatch i name o).
Proof.
  unfold dispatch, set_op_code, set_additional, set_post_byte.
  repeat first
    [ apply falls_ret | apply falls_raise | apply falls_modify | apply falls_when
    | apply falls_bind; [|intros]
    | match goal with |- falls_through (if ?c then _ else _) => destruct c end ].
Qed.

Lemma dispatch_keeps_size (i : InstructionT) (name : option string)
    (o : OperandT) :
  preserves (fun w => size (self w)) (dispatch i name o).
Proof. unfold dispatch, set_op_code, set_additional, set_post_byte. frame. Qed.

Lemma encode_dispatch (i : InstructionT) (name : option string) (o : OperandT)
    (w : world) :
  is_branch_operation i = false ->
  encode i name o w = (dispatch i name o ;; size_tail) w.
Proof.
  intros Hb. unfold encode, dispatch. rewrite Hb.
  unfold bind, when_ at 1, ret at 1.
  repeat match goal with
    | |- context [match when_ ?c ?m ?w0 with _ => _ end] =>
        destruct (when_ c m w0) as [[[]| |?] ?]; try reflexivity
    end.
Qed.

(** X16. For an instruction that is neither a pseudo operation, nor special,
    nor a branch, and an operand that is no symbol: whenever [translate]
    returns, whatever the five tests of the operand answer, [size] has
    grown by the bytes of those of the opcode, the additional bytes and
    the post-byte of the statement that are true values. *)
Theorem main_path_size (symbol_table : gmap string Stmt) (w w' : world)
    (l : loc) (i : InstructionT) :
  instruction (self w) = Some l ->
  heap w !! l = Some i ->
  is_pseudo i = false ->
  is_special i = false ->
  is_branch_operation i = false ->
  is_symbol (operand (self w)) = false ->
  renders ->
  translate symbol_table w = (Next tt, w') ->
  size (self w')
  = size (self w) + counted_bytes (op_code (self w'))
    + counted_bytes (additional (self w'))
    + counted_bytes (post_byte (self w')).
Proof.
  intros Hl Hi Hp Hs Hb Hsym Hr.
  assert (translate symbol_table w
          = call (encode i (mnemonic (self w)) (operand (self w))) w) as ->.
  { rewrite translate_encode. destruct w as [h s]. simpl in *. run_prefix.
    step. simpl. rewrite Hl, Hi. exec. reflexivity. }
  unfold call. rewrite (encode_dispatch _ _ _ _ Hb). unfold bind.
  pose proof (dispatch_falls i (mnemonic (self w)) (operand (self w)) w) as Hf.
  pose proof (dispatch_keeps_size i (mnemonic (self w)) (operand (self w)) w) as Hk.
  destruct (dispatch _ _ _ w) as [[[]| |e] w1]; simpl in *; [|done..].
  rewrite (size_tail_run _ Hr). intros [= <-]. simpl. by rewrite Hk.
Qed.

(** X14. For a branch that is neither a pseudo operation nor special, whose
    operand is no symbol or a symbol that the table holds (with an
    address that makes an operand with a text), [translate] is the
    assignment of the relative opcode to [op_code] and nothing else: the
    operand is not encoded, whatever its shape and whatever modes the
    instruction supports. *)
Theorem branch_translation (symbol_table : gmap string Stmt) (w : world)
    (l : loc) (i : InstructionT) :
  instruction (self w) = Some l ->
  heap w !! l = Some i ->
  is_pseudo i = false ->
  is_special i = false ->
  is_branch_operation i = true ->
  (is_symbol (operand (self w)) = false
   \/ exists target,
        is_symbol (operand (self w)) = true
        /\ lookup_symbol (get_string_value (operand (self w))) symbol_table
           = Some target
        /\ truthy (get_string_value (Operand (get_address target))) = true) ->
  translate symbol_table w = set_op_code (rel (mode i)) w.
Proof.
  intros Hl Hi Hp Hs Hb Hop. destruct w as [h s]. simpl in *.
  destruct Hop as [Hsym | (target & Hsym & Hlook & Htrue)].
  - run_translate. step. simpl. rewrite Hl, Hi. exec. rewrite ?Hl. reflexivity.
  - run_translate. step. simpl. rewrite Hl, Hi. exec. rewrite ?Hl. reflexivity.
Qed.

End Translation.

(** ** Mnemonic resolution *)

Section Resolution.

Context `{E : Externals}.

Abbreviation Stmt := (Statement OperandT).

Lemma find_operation_none (h : gmap loc InstructionT) (name : option string)
    (table : list loc) :
  (forall l op, l ∈ table -> h !! l = Some op -> Some (instr_mnemonic op) <> name) ->
  find_operation h name table = None.
Proof.
  induction table as [|l table IH]; intros Hno; simpl; [done|].
  destruct (h !! l) as [op|] eqn:Hop.
  - rewrite bool_decide_eq_false_2.
    + apply IH. intros l' op' Hin. apply Hno. by right.
    + apply (Hno l op); [by left | done].
  - apply IH. intros l' op' Hin. apply Hno. by right.
Qed.

Lemma find_operation_some (h : gmap loc InstructionT) (name : option string)
    (table : list loc) (l : loc) :
  find_operation h name table = Some l ->
  l ∈ table /\ exists op, h !! l = Some op /\ Some (instr_mnemonic op) = name.
Proof.
  induction table as [|l0 table IH]; simpl; [done|].
  destruct (h !! l0) as [op|] eqn:Hop.
  - case_bool_decide as Hn.
    + intros [= <-]. split; [by left|]. by exists op.
    + intros Hf. destruct (IH Hf) as [Hin Hop']. split; [by right | done].
  - intros Hf. destruct (IH Hf) as [Hin Hop']. split; [by right | done].
Qed.

(** C3. Resolution is the method [match_mnemonic]; [translate] does
    none.  When no descriptor of the table has the mnemonic of the
    statement, [match_mnemonic] raises a [TranslationError] that reports
    the mnemonic; the store holds no descriptor for the statement, and
    the opcode, the post-byte, the additional bytes and the size are
    what they were.  [translate], on the statement that [match_mnemonic]
    leaves as on any statement that has no descriptor, raises
    [AttributeError] and changes nothing. *)
Theorem unknown_mnemonic_fails (symbol_table : gmap string Stmt) (w : world) :
  (forall l op, l ∈ INSTRUCTIONS -> heap w !! l = Some op ->
                Some (instr_mnemonic op) <> mnemonic (self w)) ->
  (exists w',
     match_mnemonic w
     = (Raised (TranslationError
          ("Invalid mnemonic [" ++ format_opt (mnemonic (self w)) ++ "]")), w')
     /\ heap w' = heap w
     /\ instruction (self w') = None
     /\ op_code (self w') = op_code (self w)
     /\ post_byte (self w') = post_byte (self w)
     /\ additional (self w') = additional (self w)
     /\ size (self w') = size (self w)
     /\ translate symbol_table w' = (Raised AttributeError, w'))
  /\ (instruction (self w) = None ->
      translate symbol_table w = (Raised AttributeError, w)).
Proof.
  intros Hno. apply find_operation_none in Hno.
  assert (forall w0, instruction (self w0) = None ->
            translate symbol_table w0 = (Raised AttributeError, w0)) as Hattr.
  { intros w0 Hn. unfold translate, call, bind, self_instruction.
    by rewrite Hn. }
  split; [|apply Hattr].
  assert (match_mnemonic w
          = (Raised (TranslationError
               ("Invalid mnemonic [" ++ format_opt (mnemonic (self w)) ++ "]")),
             mkWorld (heap w)
               (mkStatement (empty (self w)) (comment_only (self w)) None
                  (label (self w)) (operand (self w)) (comment (self w))
                  (size (self w)) (address (self w)) (mnemonic (self w))
                  (op_code (self w)) (post_byte (self w)) (additional (self w))
                  (state (self w))))) as Hm.
  { unfold match_mnemonic, call, bind, match_operation, copy, set_instruction,
      modify_self, get_self, when_, raise.
    rewrite Hno. reflexivity. }
  eexists. split; [exact Hm|]. split_and!; first [done | by apply Hattr].
Qed.

Lemma match_mnemonic_heap (w : world) (l : loc) (op : InstructionT) :
  heap w !! l = Some op ->
  heap (snd (match_mnemonic w)) !! l = Some op
  /\ forall l', instruction (self (snd (match_mnemonic w))) = Some l' -> l' <> l.
Proof.
  intros Hop.
  unfold match_mnemonic, call, bind, match_operation, copy, set_instruction,
    modify_self, get_self, when_, raise, ret.
  destruct (find_operation (heap w) (mnemonic (self w)) INSTRUCTIONS)
    as [l0|] eqn:Hf; simpl; [|done].
  destruct (heap w !! l0) as [op0|] eqn:Hop0; simpl; [|done].
  assert (fresh (dom (heap w)) <> l) as Hne.
  { intros Heq. apply (is_fresh (dom (heap w))). rewrite Heq.
    apply elem_of_dom. by eexists. }
  split.
  - by rewrite lookup_insert_ne.
  - by intros l' [= <-].
Qed.

(** C7. A descriptor of the table is the same object, with the same
    attributes, after [match_mnemonic], after [translate] and after the
    two in a row: the statement works on a copy, a new object that is
    none of the table's. *)
Theorem instruction_table_unchanged (symbol_table : gmap string Stmt)
    (w : world) (l : loc) (op : InstructionT) :
  l ∈ INSTRUCTIONS ->
  heap w !! l = Some op ->
  heap (snd (match_mnemonic w)) !! l = Some op
  /\ heap (snd (translate symbol_table w)) !! l = Some op
  /\ heap (snd ((match_mnemonic ;; translate symbol_table) w)) !! l = Some op
  /\ (forall l', instruction (self (snd (match_mnemonic w))) = Some l' ->
                 l' <> l).
Proof.
  intros _ Hop. destruct (match_mnemonic_heap w l op Hop) as [Hm Hcopy].
  split_and!; [done| |  |done].
  - by rewrite translate_keeps_heap.
  - unfold bind. destruct (match_mnemonic w) as [[[]| |e] w1]; simpl in *;
      [|done..].
    by rewrite translate_keeps_heap.
Qed.

Lemma find_operation_first (h : gmap loc InstructionT) (name : option string)
    (pre post : list loc) (l : loc) (op : InstructionT) :
  (forall l0 op0, l0 ∈ pre -> h !! l0 = Some op0 ->
                  Some (instr_mnemonic op0) <> name) ->
  h !! l = Some op ->
  Some (instr_mnemonic op) = name ->
  find_operation h name (pre ++ l :: post) = Some l.
Proof.
  intros Hpre Hop Hname. induction pre as [|l0 pre IH]; simpl.
  - rewrite Hop. by rewrite bool_decide_eq_true_2.
  - destruct (h !! l0) as [op0|] eqn:Hop0.
    + rewrite bool_decide_eq_false_2.
      * apply IH. intros l1 op1 Hin. apply Hpre. by right.
      * apply (Hpre l0 op0); [by left | done].
    + apply IH. intros l1 op1 Hin. apply Hpre. by right.
Qed.

(** X9. When the table holds descriptors that have the mnemonic of the
    statement, [match_mnemonic] returns: the first of them in the order
    of the table is copied into a new object, which is none of the store
    before the call; the statement refers to the copy, and nothing else
    of the statement changes. *)
Theorem match_mnemonic_binds_copy (w : world) (pre post : list loc) (l : loc)
    (op : InstructionT) :
  INSTRUCTIONS = pre ++ l :: post ->
  (forall l0 op0, l0 ∈ pre -> heap w !! l0 = Some op0 ->
                  Some (instr_mnemonic op0) <> mnemonic (self w)) ->
  heap w !! l = Some op ->
  Some (instr_mnemonic op) = mnemonic (self w) ->
  let l' := fresh (dom (heap w)) in
  match_mnemonic w
  = set_instruction (Some l') (mkWorld (<[l' := op]> (heap w)) (self w))
  /\ heap w !! l' = None
  /\ self_instruction (snd (match_mnemonic w))
     = (Next op, snd (match_mnemonic w)).
Proof.
  intros Htable Hpre Hop Hname l'.
  pose proof (find_operation_first _ _ pre post l op Hpre Hop Hname) as Hfind.
  rewrite <- Htable in Hfind.
  assert (match_mnemonic w
          = set_instruction (Some l') (mkWorld (<[l' := op]> (heap w)) (self w)))
    as Hrun.
  { unfold match_mnemonic, call, bind, match_operation, copy, set_instruction,
      modify_self, get_self, when_, raise, ret.
    rewrite Hfind. simpl. rewrite Hop. reflexivity. }
  split; [exact Hrun|]. split.
  - apply not_elem_of_dom, is_fresh.
  - rewrite Hrun. unfold self_instruction, set_instruction, modify_self. simpl.
    by rewrite lookup_insert_eq.
Qed.

End Resolution.

(** ** Lines *)

Section Lines.

Context `{E : Externals}.

(** C8. A line of white space only, the empty line among them: the
    statement built from it is marked empty; it has no label, no
    mnemonic, no comment, the operand built from no text, size 0, and no
    opcode, post-byte or additional bytes. *)
Theorem blank_line_statement (line : string) (w : world) :
  blank_line line ->
  __init__ line w
  = (Next tt,
     mkWorld (heap w)
       (mkStatement true false None None (Operand PNone) None 0
          (hex_value (PInt 0) (Some 4)) None PNone PNone PNone PNone)).
Proof.
  intros Hb. rewrite init_then_parse. by rewrite parse_line_blank.
Qed.

(** C9. [parse_line] either raises [ParseError], with a message that
    holds the line and the statement untouched, and then the line has
    none of the three shapes; or it returns, and then the line has one
    of them.  It raises nothing else. *)
Theorem parse_error_exactly (line : string) (w : world) :
  (parse_line line w
   = (Raised (ParseError ("Could not parse line [" ++ line ++ "]")), w)
   /\ unparsable line)
  \/ ((exists w', parse_line line w = (Next tt, w')) /\ ~ unparsable line).
Proof.
  destruct w as [h s].
  destruct (bool_decide (is_Some (Re.re_search BLANK_LINE_REGEX line))) eqn:Hb.
  { right. apply bool_decide_eq_true_1, blank_search in Hb. split.
    - eexists. by apply parse_line_blank.
    - by intros [Hn _]. }
  apply bool_decide_eq_false_1 in Hb. rewrite blank_search in Hb.
  destruct (Re.re_match COMMENT_LINE_REGEX line) as [data|] eqn:Hc.
  { right. split.
    - eexists. unfold parse_line, call, bind, when_.
      rewrite (parse_line_not_blank _ Hb), Hc. reflexivity.
    - intros (_ & Hn & _). apply Hn, ReFacts.re_match_matches.
      by rewrite Hc. }
  destruct (Re.re_match ASM_LINE_REGEX line) as [data|] eqn:Ha.
  { right. split.
    - eexists. unfold parse_line, call, bind, when_.
      rewrite (parse_line_not_blank _ Hb), Hc, Ha. reflexivity.
    - intros (_ & _ & Hn). apply Hn, ReFacts.re_match_matches.
      by rewrite Ha. }
  left. split.
  - unfold parse_line, call, bind, when_.
    rewrite (parse_line_not_blank _ Hb), Hc, Ha. reflexivity.
  - split_and!; [done| |].
    + intros Hm. apply ReFacts.re_match_matches in Hm. rewrite Hc in Hm.
      by destruct Hm.
    + intros Hm. apply ReFacts.re_match_matches in Hm. rewrite Ha in Hm.
      by destruct Hm.
Qed.

Lemma translate_unresolved (symbol_table : gmap string (Statement OperandT))
    (w : world) :
  instruction (self w) = None ->
  translate symbol_table w = (Raised AttributeError, w).
Proof.
  intros Hn. unfold translate, call, bind, self_instruction. by rewrite Hn.
Qed.

(** X10. [translate] called on a statement straight after its construction,
    with no call of [match_mnemonic] in between, never returns: on every
    line that is parsed it raises [AttributeError], for [self.instruction]
    is still [None]. *)
Theorem translate_needs_resolution
    (symbol_table : gmap string (Statement OperandT)) (line : string) (w : world) :
  let r := (__init__ line ;; translate symbol_table) w in
  fst r = Raised AttributeError
  \/ fst r = Raised (ParseError ("Could not parse line [" ++ line ++ "]")).
Proof.
  cbv zeta. unfold bind. rewrite init_then_parse.
  set (w0 := mkWorld (heap w) fresh_statement).
  assert (forall w', instruction (self w') = None ->
            fst (translate symbol_table w') = Raised AttributeError) as Hno.
  { intros w' Hn. by rewrite translate_unresolved. }
  destruct (bool_decide (is_Some (Re.re_search BLANK_LINE_REGEX line))) eqn:Hb.
  { apply bool_decide_eq_true_1, blank_search in Hb.
    rewrite (parse_line_blank _ _ Hb). left. by apply Hno. }
  unfold parse_line, call, bind, when_. rewrite Hb.
  destruct (Re.re_match COMMENT_LINE_REGEX line) as [data|]; simpl.
  { left. first [reflexivity | by apply Hno]. }
  destruct (Re.re_match ASM_LINE_REGEX line) as [data|]; simpl.
  { left. first [reflexivity | by apply Hno]. }
  by right.
Qed.

End Lines.

(** ** What the matcher captures *)

Module ReCaptures.
Import Re.

(** The text that follows a repetition does not start with a character
    of its class. *)
Definition stops (c : cls) (rest : list ascii) : Prop :=
  match rest with
  | [] => True
  | x :: _ => mem c x = false
  end.

(** A repetition takes the whole run of its class when the rest of the
    pattern matches after it. *)
Lemma greedy_max {R : Type} (c : cls) (k : list ascii -> list ascii -> option R)
    (t : list ascii) :
  forall taken rest r,
    forallb (mem c) t = true ->
    stops c rest ->
    k (taken ++ t) rest = Some r ->
    greedy c k taken (t ++ rest) = Some r.
Proof.
  induction t as [|x t IH]; intros taken rest r Ht Hstop Hk.
  - rewrite app_nil_r in Hk. destruct rest as [|y rest]; simpl; [done|].
    simpl in Hstop. by rewrite Hstop.
  - simpl in Ht. apply andb_prop in Ht as [Hx Ht]. simpl. rewrite Hx.
    rewrite (IH (taken ++ [x]) rest r); [done..|]. by rewrite <- app_assoc.
Qed.

(** It gives back its last character when the rest of the pattern does
    not match after the whole run and does after all of it but the
    last. *)
Lemma greedy_back_one {R : Type} (c : cls)
    (k : list ascii -> list ascii -> option R) (t : list ascii) (x : ascii) :
  forall taken rest r,
    forallb (mem c) t = true ->
    mem c x = true ->
    stops c rest ->
    k (taken ++ t ++ [x]) rest = None ->
    k (taken ++ t) (x :: rest) = Some r ->
    greedy c k taken (t ++ x :: rest) = Some r.
Proof.
  induction t as [|y t IH]; intros taken rest r Ht Hx Hstop Hnone Hsome.
  - simpl in *. rewrite Hx. rewrite app_nil_r in Hsome.
    assert (greedy c k (taken ++ [x]) rest = None) as ->; [|done].
    destruct rest as [|z rest]; simpl; [done|]. simpl in Hstop. by rewrite Hstop.
  - simpl in Ht. apply andb_prop in Ht as [Hy Ht]. simpl. rewrite Hy.
    rewrite (IH (taken ++ [y]) rest r); [done..| |].
    + by rewrite <- app_assoc.
    + by rewrite <- app_assoc.
Qed.

(** It fails when the rest of the pattern matches after no part of the
    run. *)
Lemma greedy_none {R : Type} (c : cls) (k : list ascii -> list ascii -> option R)
    (taken s : list ascii) :
  (forall t rest, s = t ++ rest -> forallb (mem c) t = true ->
                  k (taken ++ t) rest = None) ->
  greedy c k taken s = None.
Proof.
  intros Hk. destruct (greedy c k taken s) as [r|] eqn:Hg; [|done].
  apply ReFacts.greedy_sound in Hg as (t & rest & Hs & Ht & Hr).
  by rewrite (Hk t rest Hs Ht) in Hr.
Qed.

(** The named groups of a pattern, in order, with their classes. *)
Fixpoint groups (p : list item) : list (string * cls) :=
  match p with
  | [] => []
  | Group n c :: p' => (n, c) :: groups p'
  | _ :: p' => groups p'
  end.

(** Each group captured text of its class. *)
Definition captured (new : captures) (gs : list (string * cls)) : Prop :=
  Forall2 (fun nt nc => nt.1 = nc.1 /\ forallb (mem nc.2) nt.2 = true) new gs.

Lemma run_captures (p : list item) :
  forall at0 s caps r,
    run p at0 s caps = Some r ->
    exists new, r = caps ++ new /\ captured new (groups p).
Proof.
  induction p as [|i p IH]; intros at0 s caps r; simpl.
  - intros [= <-]. exists []. rewrite app_nil_r. split; [done|]. constructor.
  - destruct i as [| |c|c|c|n c].
    + destruct at0; [apply IH | done].
    + destruct (at_end s); [apply IH | done].
    + destruct s as [|x s]; [done|]. destruct (mem c x); [apply IH | done].
    + intros Hr. apply ReFacts.greedy_sound in Hr as (t & rest & _ & _ & Hk).
      by apply IH in Hk.
    + intros Hr. apply ReFacts.greedy_sound in Hr as (t & rest & _ & _ & Hk).
      simpl in Hk. destruct (is_nil t); [done|]. by apply IH in Hk.
    + intros Hr. apply ReFacts.greedy_sound in Hr as (t & rest & _ & Ht & Hk).
      apply IH in Hk as (new & -> & Hnew). exists ((n, t) :: new).
      rewrite <- app_assoc. split; [done|]. by constructor.
Qed.

End ReCaptures.

(** ** Characters of the classes *)

Ltac each_char x :=
  destruct x as [[] [] [] [] [] [] [] []]; vm_compute; congruence.

Lemma word_not_space (x : ascii) : is_word x = true -> is_space x = false.
Proof. each_char x. Qed.

Lemma space_not_operand (x : ascii) :
  is_space x = true -> Re.mem OPERAND_CHARS x = false.
Proof. each_char x. Qed.

Lemma word_is_operand (x : ascii) :
  is_word x = true -> Re.mem OPERAND_CHARS x = true.
Proof. each_char x. Qed.

Lemma semicolon_only (x : ascii) :
  Re.mem (Re.Atom (Re.AChar ";")) x = true -> x = ";"%char.
Proof. each_char x. Qed.

Lemma semicolon_class (x : ascii) :
  Re.mem (Re.Bracket [Re.AChar ";"]) x = true -> x = ";"%char.
Proof. each_char x. Qed.

Lemma not_dot_is_space (x : ascii) :
  Re.mem Re.Dot x = false -> is_space x = true.
Proof. each_char x. Qed.

(** ** The listing line, column by column *)

Section ListingFacts.

Context `{E : Externals}.

Variable operand_type : OperandT -> pyval.

Lemma length_append (a b : string) :
  String.length (a ++ b)%string = String.length a + String.length b.
Proof. induction a as [|c a IH]; simpl; [done|]. by rewrite IH. Qed.

Lemma length_blanks (n : nat) : String.length (blanks n) = n.
Proof. induction n as [|n IH]; simpl; [done|]. by rewrite IH. Qed.

Lemma length_ljust (width : nat) (s : string) :
  String.length (ljust width s) = Nat.max width (String.length s).
Proof. unfold ljust. rewrite length_append, length_blanks. lia. Qed.

Lemma length_rjust (width : nat) (s : string) :
  String.length (rjust width s) = Nat.max width (String.length s).
Proof. unfold rjust. rewrite length_append, length_blanks. lia. Qed.

(** A column: the field and then blanks, or blanks and then the field,
    as many as make the width when the field is shorter. *)
Definition left_aligned (width : nat) (field column : string) : Prop :=
  exists n, column = (field ++ blanks n)%string
            /\ String.length column = Nat.max width (String.length field).

Definition right_aligned (width : nat) (field column : string) : Prop :=
  exists n, column = (blanks n ++ field)%string
            /\ String.length column = Nat.max width (String.length field).

Lemma ljust_aligned (width : nat) (s : string) :
  left_aligned width s (ljust width s).
Proof. eexists. split; [reflexivity|]. apply length_ljust. Qed.

Lemma rjust_aligned (width : nat) (s : string) :
  right_aligned width s (rjust width s).
Proof. eexists. split; [reflexivity|]. apply length_rjust. Qed.

(** X19. The line that [__str__] returns is [$] and the address, then
    five columns and the type of the operand, one blank between them and
    [;] between two blanks more before the comment.  The codes and the
    comment stand at the left of their columns, the label, the mnemonic
    and the text of the operand at the right of theirs.  No field is
    cut, and each column is as wide as 15, 10, 5, 15 and 40 characters
    at least. *)
Theorem listing_columns (s : Statement OperandT) (text : string) :
  __str__ operand_type s = inr text ->
  exists ops opnd codes lbl mn opd cmt,
    op_code_string s = inr ops
    /\ get_string_value (operand s) = PStr opnd
    /\ text
       = ("$" ++ py_format (get_address s) ++ " " ++ codes ++ " " ++ lbl ++ " "
          ++ mn ++ " " ++ opd ++ "  ; " ++ cmt ++ " "
          ++ py_format (operand_type (operand s)))%string
    /\ left_aligned 15 ops codes
    /\ right_aligned 10 (get_label s) lbl
    /\ right_aligned 5 (get_mnemonic s) mn
    /\ right_aligned 15 opnd opd
    /\ left_aligned 40 (get_comment s) cmt
    /\ String.length text
       = String.length (py_format (get_address s))
         + Nat.max 15 (String.length ops)
         + Nat.max 10 (String.length (get_label s))
         + Nat.max 5 (String.length (get_mnemonic s))
         + Nat.max 15 (String.length opnd)
         + Nat.max 40 (String.length (get_comment s))
         + String.length (py_format (operand_type (operand s)))
         + 10.
Proof.
  unfold __str__. destruct (op_code_string s) as [e|ops]; [done|].
  destruct (get_string_value (operand s)) as [|z|opnd]; [done|done|].
  intros [= <-].
  exists ops, opnd, (ljust 15 ops), (rjust 10 (get_label s)),
    (rjust 5 (get_mnemonic s)), (rjust 15 opnd), (ljust 40 (get_comment s)).
  split_and!; try done; try apply ljust_aligned; try apply rjust_aligned.
  rewrite !length_append, !length_ljust, !length_rjust. simpl. lia.
Qed.


End ListingFacts.

(** ** The fields of a line *)

Section Fields.

Context `{E : Externals}.

(** The statement [parse_line] leaves for an instruction line. *)
Definition instruction_statement (lbl mn : option string) (opd : string)
    (cmt : option string) : Statement OperandT :=
  mkStatement false false None lbl (Operand (PStr opd)) cmt 0
    (hex_value (PInt 0) (Some 4)) mn PNone PNone PNone PNone.

Lemma parse_line_asm (line : string) (w : world) (data : Re.captures) :
  ~ blank_line line ->
  Re.re_match COMMENT_LINE_REGEX line = None ->
  Re.re_match ASM_LINE_REGEX line = Some data ->
  __init__ line w
  = (Next tt,
     mkWorld (heap w)
       (instruction_statement (str_or_None (Re.group "label" data))
          (str_or_None (Re.group "mnemonic" data)) (Re.group "operands" data)
          (str_or_None (strip (Re.group "comment" data))))).
Proof.
  intros Hb Hc Ha. rewrite init_then_parse.
  unfold parse_line, call, bind, when_.
  rewrite (parse_line_not_blank _ Hb), Hc, Ha. reflexivity.
Qed.

Lemma parse_line_comment (line : string) (w : world) (data : Re.captures) :
  ~ blank_line line ->
  Re.re_match COMMENT_LINE_REGEX line = Some data ->
  __init__ line w
  = (Next tt,
     mkWorld (heap w)
       (mkStatement false true None None (Operand PNone)
          (Some (strip (Re.group "comment" data))) 0
          (hex_value (PInt 0) (Some 4)) None PNone PNone PNone PNone)).
Proof.
  intros Hb Hc. rewrite init_then_parse.
  unfold parse_line, call, bind, when_.
  rewrite (parse_line_not_blank _ Hb), Hc. reflexivity.
Qed.

Lemma parse_line_neither (line : string) (w : world) :
  ~ blank_line line ->
  Re.re_match COMMENT_LINE_REGEX line = None ->
  Re.re_match ASM_LINE_REGEX line = None ->
  __init__ line w
  = (Raised (ParseError ("Could not parse line [" ++ line ++ "]")),
     mkWorld (heap w) fresh_statement).
Proof.
  intros Hb Hc Ha. rewrite init_then_parse.
  unfold parse_line, call, bind, when_.
  rewrite (parse_line_not_blank _ Hb), Hc, Ha. reflexivity.
Qed.

Lemma blank_line_dec (line : string) : {blank_line line} + {~ blank_line line}.
Proof. unfold blank_line. destruct (forallb _ _); [by left | by right]. Qed.

(** X2. A statement is of one kind and one only. *)
Theorem statement_kinds (line : string) (w w' : world) :
  __init__ line w = (Next tt, w') ->
  (heap w' = heap w /\ instruction (self w') = None /\ size (self w') = 0
   /\ op_code (self w') = PNone /\ post_byte (self w') = PNone
   /\ additional (self w') = PNone)
  /\ ((blank_line line
       /\ empty (self w') = true /\ comment_only (self w') = false
       /\ label (self w') = None /\ mnemonic (self w') = None
       /\ comment (self w') = None)
      \/ (~ blank_line line /\ Re.matches COMMENT_LINE_REGEX line
          /\ empty (self w') = false /\ comment_only (self w') = true
          /\ label (self w') = None /\ mnemonic (self w') = None
          /\ is_Some (comment (self w')))
      \/ (~ blank_line line /\ ~ Re.matches COMMENT_LINE_REGEX line
          /\ Re.matches ASM_LINE_REGEX line
          /\ empty (self w') = false /\ comment_only (self w') = false)).
Proof.
  destruct (blank_line_dec line) as [Hb|Hb].
  { rewrite init_then_parse, (parse_line_blank _ _ Hb). intros [= <-].
    split; [done|]. left. done. }
  destruct (Re.re_match COMMENT_LINE_REGEX line) as [data|] eqn:Hc.
  { rewrite (parse_line_comment _ _ _ Hb Hc). intros [= <-].
    split; [done|]. right. left. split_and!; try done.
    apply ReFacts.re_match_matches. by rewrite Hc. }
  assert (~ Re.matches COMMENT_LINE_REGEX line) as Hnc.
  { intros Hm. apply ReFacts.re_match_matches in Hm. rewrite Hc in Hm.
    by destruct Hm. }
  destruct (Re.re_match ASM_LINE_REGEX line) as [data|] eqn:Ha.
  { rewrite (parse_line_asm _ _ _ Hb Hc Ha). intros [= <-].
    split; [done|]. right. right. split_and!; try done.
    apply ReFacts.re_match_matches. by rewrite Ha. }
  by rewrite (parse_line_neither _ _ Hb Hc Ha).
Qed.

Lemma str_or_None_Some (s l : string) :
  str_or_None s = Some l -> l = s /\ l <> "".
Proof.
  unfold str_or_None. destruct (String.eqb s "") eqn:Hs; [done|].
  intros [= <-]. split; [done|]. intros ->. by rewrite String.eqb_refl in Hs.
Qed.

Lemma asm_captures (line : string) (data : Re.captures) :
  Re.re_match ASM_LINE_REGEX line = Some data ->
  exists lbl mn opd cmt,
    data = [("label", lbl); ("mnemonic", mn); ("operands", opd); ("comment", cmt)]
    /\ forallb is_word lbl = true /\ forallb is_word mn = true
    /\ forallb (Re.mem OPERAND_CHARS) opd = true
    /\ forallb (Re.mem Re.Dot) cmt = true.
Proof.
  intros Ha. apply ReCaptures.run_captures in Ha as (new & -> & Hnew).
  unfold ReCaptures.captured in Hnew. simpl in Hnew.
  repeat match goal with
    | H : Forall2 _ _ (_ :: _) |- _ =>
        apply Forall2_cons_inv_r in H as ([? ?] & ? & [? ?] & H & ->)
    | H : Forall2 _ _ [] |- _ => apply Forall2_nil_inv_r in H as ->
    end.
  simpl in *. subst. by eexists _, _, _, _.
Qed.

(** X3. The label and the mnemonic of a statement, when it has them, are
    words; its operand is built from no text, or from a text of operand
    characters. *)
Theorem parsed_fields_are_words (line : string) (w w' : world) :
  __init__ line w = (Next tt, w') ->
  (forall l, label (self w') = Some l ->
     l <> "" /\ forallb is_word (list_ascii_of_string l) = true)
  /\ (forall m, mnemonic (self w') = Some m ->
        m <> "" /\ forallb is_word (list_ascii_of_string m) = true)
  /\ (operand (self w') = Operand PNone
      \/ exists text,
           operand (self w') = Operand (PStr text)
           /\ forallb (Re.mem OPERAND_CHARS) (list_ascii_of_string text) = true)
  /\ (comment_only (self w') = false -> comment (self w') <> Some "").
Proof.
  destruct (blank_line_dec line) as [Hb|Hb].
  { rewrite init_then_parse, (parse_line_blank _ _ Hb). intros [= <-].
    split_and!; by try left. }
  destruct (Re.re_match COMMENT_LINE_REGEX line) as [data|] eqn:Hc.
  { rewrite (parse_line_comment _ _ _ Hb Hc). intros [= <-].
    split_and!; by try left. }
  destruct (Re.re_match ASM_LINE_REGEX line) as [data|] eqn:Ha.
  - rewrite (parse_line_asm _ _ _ Hb Hc Ha). intros [= <-].
    apply asm_captures in Ha as (lbl & mn & opd & cmt & -> & Hl & Hm & Ho & _).
    simpl. split_and!.
    + intros l [-> Hne]%str_or_None_Some.
      by rewrite list_ascii_of_string_of_list_ascii.
    + intros m [-> Hne]%str_or_None_Some.
      by rewrite list_ascii_of_string_of_list_ascii.
    + right. eexists. split; [done|].
      by rewrite list_ascii_of_string_of_list_ascii.
    + intros _ [_ Hne]%str_or_None_Some. done.
  - by rewrite (parse_line_neither _ _ Hb Hc Ha).
Qed.

(** The number of white-space characters of a text. *)
Fixpoint spaces (s : list ascii) : nat :=
  match s with
  | [] => 0
  | x :: s' => (if is_space x then 1 else 0) + spaces s'
  end.

Lemma spaces_app (s t : list ascii) : spaces (s ++ t) = spaces s + spaces t.
Proof. induction s as [|x s IH]; simpl; [done|]. rewrite IH. lia. Qed.

Lemma spaces_all (s : list ascii) :
  s <> [] -> forallb is_space s = true -> 0 < spaces s.
Proof.
  destruct s as [|x s]; [done|]. simpl. intros _ [-> _]%andb_prop. lia.
Qed.

Lemma lstrip_spaces (ws r : list ascii) :
  forallb is_space ws = true -> lstrip (ws ++ r) = lstrip r.
Proof.
  induction ws as [|x ws IH]; simpl; [done|].
  intros [-> Hws]%andb_prop. by apply IH.
Qed.

Lemma comment_line_shape (line : string) :
  Re.matches COMMENT_LINE_REGEX line ->
  exists ws r, list_ascii_of_string line = ws ++ ";"%char :: r
               /\ forallb is_space ws = true.
Proof.
  unfold Re.matches. simpl.
  intros (_ & ws & r & -> & Hws & x & r' & -> & Hx & _).
  apply semicolon_only in Hx as ->. by exists ws, r'.
Qed.

Lemma asm_line_shape (line : string) :
  Re.matches ASM_LINE_REGEX line ->
  exists t1 ws1 t2 ws2 r,
    list_ascii_of_string line = t1 ++ ws1 ++ t2 ++ ws2 ++ r
    /\ ws1 <> [] /\ forallb is_space ws1 = true
    /\ ws2 <> [] /\ forallb is_space ws2 = true.
Proof.
  unfold Re.matches. simpl.
  intros (_ & t1 & r1 & -> & _ & ws1 & r2 & -> & Hn1 & Hws1
          & t2 & r3 & -> & _ & ws2 & r4 & -> & Hn2 & Hws2 & _).
  exists t1, ws1, t2, ws2, r4. split_and!; try done.
  - by destruct ws1.
  - by destruct ws2.
Qed.

(** X4. A line that holds one white-space character at most, is not blank
    and whose first character other than white space is not a semicolon,
    is no statement: fields are told apart by white space only, and the
    pattern asks for white space before and after the mnemonic. *)
Theorem few_spaces_parse_error (line : string) (w : world) :
  ~ blank_line line ->
  spaces (list_ascii_of_string line) < 2 ->
  hd_error (lstrip (list_ascii_of_string line)) <> Some ";"%char ->
  parse_line line w
  = (Raised (ParseError ("Could not parse line [" ++ line ++ "]")), w).
Proof.
  intros Hb Hfew Hsemi.
  assert (Re.re_match COMMENT_LINE_REGEX line = None) as Hc.
  { destruct (Re.re_match COMMENT_LINE_REGEX line) as [data|] eqn:Hc; [|done].
    exfalso. apply Hsemi.
    destruct (comment_line_shape line) as (ws & r & -> & Hws).
    { apply ReFacts.re_match_matches. by rewrite Hc. }
    by rewrite (lstrip_spaces _ _ Hws). }
  assert (Re.re_match ASM_LINE_REGEX line = None) as Ha.
  { destruct (Re.re_match ASM_LINE_REGEX line) as [data|] eqn:Ha; [|done].
    exfalso.
    destruct (asm_line_shape line)
      as (t1 & ws1 & t2 & ws2 & r & Hs & Hn1 & Hw1 & Hn2 & Hw2).
    { apply ReFacts.re_match_matches. by rewrite Ha. }
    rewrite Hs in Hfew. rewrite !spaces_app in Hfew.
    pose proof (spaces_all _ Hn1 Hw1). pose proof (spaces_all _ Hn2 Hw2). lia. }
  unfold parse_line, call, bind, when_.
  rewrite (parse_line_not_blank _ Hb), Hc, Ha. by destruct w.
Qed.

Lemma lstrip_split (text : list ascii) :
  exists sp, text = sp ++ lstrip text /\ forallb is_space sp = true
             /\ ReCaptures.stops (Re.Atom Re.ASpace) (lstrip text).
Proof.
  induction text as [|x text (sp & Ht & Hsp & Hstop)]; simpl.
  - by exists [].
  - destruct (is_space x) eqn:Hx.
    + exists (x :: sp). simpl. rewrite Hx, Hsp. split; [by f_equal|done].
    + by exists [].
Qed.

Lemma lstrip_stopped (s : list ascii) :
  ReCaptures.stops (Re.Atom Re.ASpace) s -> lstrip s = s.
Proof. destruct s as [|x s]; simpl; [done|]. by intros ->. Qed.

Lemma lstrip_idem (s : list ascii) : lstrip (lstrip s) = lstrip s.
Proof.
  destruct (lstrip_split s) as (sp & _ & _ & Hstop). by apply lstrip_stopped.
Qed.

Lemma forallb_suffix {A} (f : A -> bool) (s t : list A) :
  forallb f (s ++ t) = true -> forallb f t = true.
Proof. rewrite forallb_app. by intros [_ ?]%andb_prop. Qed.

(** The end of a line: nothing, or one newline. *)
Definition line_end (eol : list ascii) : Prop := eol = [] \/ eol = [newline].

Lemma comment_run (ws text eol : list ascii) :
  forallb is_space ws = true ->
  forallb (Re.mem Re.Dot) text = true ->
  line_end eol ->
  Re.run COMMENT_LINE_REGEX true (ws ++ ";"%char :: text ++ eol) []
  = Some [("comment", lstrip text)].
Proof.
  intros Hws Htext Heol. simpl.
  apply ReCaptures.greedy_max; [done|done|]. simpl.
  destruct (lstrip_split text) as (sp & Ht & Hsp & Hstop).
  destruct (lstrip text) as [|c core] eqn:Hcore.
  - rewrite app_nil_r in Ht. subst sp.
    rewrite <- (app_nil_r (text ++ eol)).
    apply ReCaptures.greedy_max; [|done|done].
    change (forallb is_space (text ++ eol) = true).
    rewrite forallb_app, Hsp. by destruct Heol as [-> | ->].
  - rewrite Ht at 1. rewrite <- app_assoc.
    apply ReCaptures.greedy_max; [done| |].
    { simpl in *. done. }
    simpl app at 1.
    change (Re.greedy Re.Dot
              (fun t r => Re.run [Re.Eol] (false && Re.is_nil t) r
                            ([] ++ [("comment", t)])) []
              ((c :: core) ++ eol) = Some [("comment", c :: core)]).
    apply ReCaptures.greedy_max.
    + rewrite Ht in Htext. by apply forallb_suffix in Htext.
    + by destruct Heol as [-> | ->].
    + simpl. by destruct Heol as [-> | ->].
Qed.

Lemma not_blank (pre post : list ascii) (x : ascii) :
  is_space x = false -> ~ blank_line (string_of_list_ascii (pre ++ x :: post)).
Proof.
  unfold blank_line. rewrite list_ascii_of_string_of_list_ascii, forallb_app.
  simpl. intros ->. rewrite andb_false_r. done.
Qed.

(** X1. A comment line: white space or none, a semicolon, a text with no
    newline in it, and the end of the line.  The statement is marked as
    a comment only; its comment is the text stripped of the white space
    around it, the empty string when nothing else is left; it has no
    label, no mnemonic, and the operand built from no text. *)
Theorem comment_line_statement (ws text eol : list ascii) (w : world) :
  forallb is_space ws = true ->
  forallb (Re.mem Re.Dot) text = true ->
  line_end eol ->
  __init__ (string_of_list_ascii (ws ++ ";"%char :: text ++ eol)) w
  = (Next tt,
     mkWorld (heap w)
       (mkStatement false true None None (Operand PNone)
          (Some (strip (string_of_list_ascii text))) 0
          (hex_value (PInt 0) (Some 4)) None PNone PNone PNone PNone)).
Proof.
  intros Hws Htext Heol.
  rewrite (parse_line_comment _ _ [("comment", lstrip text)]).
  - simpl. unfold strip, strip_chars.
    by rewrite !list_ascii_of_string_of_list_ascii, lstrip_idem.
  - by apply not_blank.
  - unfold Re.re_match. rewrite list_ascii_of_string_of_list_ascii.
    by apply comment_run.
Qed.

Lemma space_not_word (x : ascii) : is_space x = true -> is_word x = false.
Proof.
  intros Hs. destruct (is_word x) eqn:Hw; [|done].
  apply word_not_space in Hw. congruence.
Qed.

Lemma stops_run (c d : Re.cls) (s rest : list ascii) :
  s <> [] ->
  forallb (Re.mem d) s = true ->
  (forall x, Re.mem d x = true -> Re.mem c x = false) ->
  ReCaptures.stops c (s ++ rest).
Proof.
  destruct s as [|x s]; [done|]. simpl. intros _ [Hx _]%andb_prop Hcd.
  by apply Hcd.
Qed.

Lemma is_nil_false (s : list ascii) : s <> [] -> Re.is_nil s = false.
Proof. by destruct s. Qed.

Lemma asm_run (lbl ws1 mn ws2 opd ws3 semis text eol : list ascii) :
  forallb is_word lbl = true ->
  ws1 <> [] -> forallb is_space ws1 = true ->
  mn <> [] -> forallb is_word mn = true ->
  ws2 <> [] -> forallb is_space ws2 = true ->
  forallb (Re.mem OPERAND_CHARS) opd = true ->
  forallb is_space ws3 = true ->
  forallb (Re.mem (Re.Bracket [Re.AChar ";"])) semis = true ->
  forallb (Re.mem Re.Dot) text = true ->
  line_end eol ->
  ReCaptures.stops (Re.Atom Re.ASpace) (opd ++ ws3 ++ semis ++ text ++ eol) ->
  ReCaptures.stops OPERAND_CHARS (ws3 ++ semis ++ text ++ eol) ->
  ReCaptures.stops (Re.Atom Re.ASpace) (semis ++ text ++ eol) ->
  ReCaptures.stops (Re.Bracket [Re.AChar ";"]) (text ++ eol) ->
  Re.run ASM_LINE_REGEX true
    (lbl ++ ws1 ++ mn ++ ws2 ++ opd ++ ws3 ++ semis ++ text ++ eol) []
  = Some [("label", lbl); ("mnemonic", mn); ("operands", opd); ("comment", text)].
Proof.
  intros Hlbl Hn1 Hws1 Hnm Hmn Hn2 Hws2 Hopd Hws3 Hsemis Htext Heol
    Hs1 Hs2 Hs3 Hs4.
  simpl.
  apply ReCaptures.greedy_max; [done| |].
  { apply (stops_run _ (Re.Atom Re.ASpace)); [done..|]. apply space_not_word. }
  simpl. apply ReCaptures.greedy_max; [done| |].
  { apply (stops_run _ (Re.Atom Re.AWord)); [done..|]. apply word_not_space. }
  simpl. rewrite (is_nil_false _ Hn1).
  apply ReCaptures.greedy_max; [done| |].
  { apply (stops_run _ (Re.Atom Re.ASpace)); [done..|]. apply space_not_word. }
  simpl. apply ReCaptures.greedy_max; [done|done|].
  simpl. rewrite (is_nil_false _ Hn2).
  apply ReCaptures.greedy_max; [done|done|].
  simpl. apply ReCaptures.greedy_max; [done|done|].
  simpl. apply ReCaptures.greedy_max; [done|done|].
  simpl. apply ReCaptures.greedy_max; [done| |].
  { by destruct Heol as [-> | ->]. }
  simpl. by destruct Heol as [-> | ->].
Qed.

(** X6. An instruction line: a label or none, white space, a mnemonic,
    white space, an operand or none; then white space or none,
    semicolons or none, a text with no newline in it, and the end of the
    line; each field ends where the next one starts.  The statement has
    the label ([None] for none), the mnemonic, the operand built from the
    text of the operand, and for comment the text stripped ([None] when
    nothing is left of it). *)
Theorem instruction_line_fields
    (lbl ws1 mn ws2 opd ws3 semis text eol : list ascii) (w : world) :
  forallb is_word lbl = true ->
  ws1 <> [] -> forallb is_space ws1 = true ->
  mn <> [] -> forallb is_word mn = true ->
  ws2 <> [] -> forallb is_space ws2 = true ->
  forallb (Re.mem OPERAND_CHARS) opd = true ->
  forallb is_space ws3 = true ->
  forallb (Re.mem (Re.Bracket [Re.AChar ";"])) semis = true ->
  forallb (Re.mem Re.Dot) text = true ->
  line_end eol ->
  ReCaptures.stops (Re.Atom Re.ASpace) (opd ++ ws3 ++ semis ++ text ++ eol) ->
  ReCaptures.stops OPERAND_CHARS (ws3 ++ semis ++ text ++ eol) ->
  ReCaptures.stops (Re.Atom Re.ASpace) (semis ++ text ++ eol) ->
  ReCaptures.stops (Re.Bracket [Re.AChar ";"]) (text ++ eol) ->
  __init__
    (string_of_list_ascii
       (lbl ++ ws1 ++ mn ++ ws2 ++ opd ++ ws3 ++ semis ++ text ++ eol)) w
  = (Next tt,
     mkWorld (heap w)
       (instruction_statement (str_or_None (string_of_list_ascii lbl))
          (Some (string_of_list_ascii mn)) (string_of_list_ascii opd)
          (str_or_None (strip (string_of_list_ascii text))))).
Proof.
  intros Hlbl Hn1 Hws1 Hnm Hmn Hn2 Hws2 Hopd Hws3 Hsemis Htext Heol
    Hs1 Hs2 Hs3 Hs4.
  set (s := lbl ++ ws1 ++ mn ++ ws2 ++ opd ++ ws3 ++ semis ++ text ++ eol).
  assert (exists pre x post, s = pre ++ x :: post /\ forallb is_space pre = true
                             /\ is_word x = true) as (pre & x & post & Hs & Hpre & Hx).
  { destruct mn as [|x mn']; [done|]. simpl in Hmn.
    apply andb_prop in Hmn as [Hx _].
    destruct lbl as [|y lbl'].
    - exists ws1, x, (mn' ++ ws2 ++ opd ++ ws3 ++ semis ++ text ++ eol). done.
    - simpl in Hlbl. apply andb_prop in Hlbl as [Hy _].
      exists [], y, (lbl' ++ ws1 ++ (x :: mn') ++ ws2 ++ opd ++ ws3 ++ semis
                     ++ text ++ eol). done. }
  assert (Re.re_match ASM_LINE_REGEX (string_of_list_ascii s)
          = Some [("label", lbl); ("mnemonic", mn); ("operands", opd);
                  ("comment", text)]) as Ha.
  { unfold Re.re_match. rewrite list_ascii_of_string_of_list_ascii.
    by apply asm_run. }
  assert (~ blank_line (string_of_list_ascii s)) as Hb.
  { rewrite Hs. by apply not_blank, word_not_space. }
  assert (Re.re_match COMMENT_LINE_REGEX (string_of_list_ascii s) = None) as Hc.
  { destruct (Re.re_match COMMENT_LINE_REGEX (string_of_list_ascii s))
      as [data|] eqn:Hc; [|done].
    exfalso. destruct (comment_line_shape (string_of_list_ascii s))
      as (ws & r & Hshape & Hws).
    { apply ReFacts.re_match_matches. by rewrite Hc. }
    rewrite list_ascii_of_string_of_list_ascii, Hs in Hshape.
    assert (lstrip (pre ++ x :: post) = x :: post) as H1.
    { rewrite (lstrip_spaces _ _ Hpre). simpl.
      by rewrite (word_not_space _ Hx). }
    rewrite Hshape, (lstrip_spaces _ _ Hws) in H1. simpl in H1.
    injection H1 as <- _. done. }
  rewrite (parse_line_asm _ w _ Hb Hc Ha). simpl. unfold str_or_None at 2.
  destruct (String.eqb (string_of_list_ascii mn) "") eqn:Hm; [|done].
  apply String.eqb_eq in Hm. by destruct mn.
Qed.

Lemma greedy_all {R : Type} (c : Re.cls)
    (k : list ascii -> list ascii -> option R) (t taken : list ascii) (r : R) :
  forallb (Re.mem c) t = true ->
  k (taken ++ t) [] = Some r ->
  Re.greedy c k taken t = Some r.
Proof.
  intros Ht Hk. rewrite <- (app_nil_r t) at 1.
  by apply ReCaptures.greedy_max.
Qed.

Lemma run_bol (p : list Re.item) (s : list ascii) (caps : Re.captures) :
  Re.run (Re.Bol :: p) true s caps = Re.run p true s caps.
Proof. reflexivity. Qed.

Lemma run_group (n : string) (c : Re.cls) (p : list Re.item) (at0 : bool)
    (s : list ascii) (caps : Re.captures) :
  Re.run (Re.Group n c :: p) at0 s caps
  = Re.greedy c
      (fun t r => Re.run p (at0 && Re.is_nil t) r (caps ++ [(n, t)])) [] s.
Proof. reflexivity. Qed.

Lemma run_plus (c : Re.cls) (p : list Re.item) (at0 : bool) (s : list ascii)
    (caps : Re.captures) :
  Re.run (Re.Plus c :: p) at0 s caps
  = Re.greedy c
      (fun t r => if Re.is_nil t then None else Re.run p false r caps) [] s.
Proof. reflexivity. Qed.

Lemma stops_first (c d : Re.cls) (s : list ascii) :
  s <> [] ->
  forallb (Re.mem d) s = true ->
  (forall x, Re.mem d x = true -> Re.mem c x = false) ->
  ReCaptures.stops c s.
Proof.
  intros Hn Hs Hcd. rewrite <- (app_nil_r s). by apply (stops_run _ d).
Qed.

Lemma indented_word_run (ws word : list ascii) (c : ascii) :
  ws <> [] -> forallb is_space ws = true ->
  is_space c = true ->
  word <> [] -> forallb is_word word = true ->
  Re.run ASM_LINE_REGEX true (ws ++ c :: word) []
  = Some [("label", []); ("mnemonic", []); ("operands", word); ("comment", [])].
Proof.
  intros Hn Hws Hc Hnw Hword.
  assert (ReCaptures.stops (Re.Atom Re.ASpace) word) as Hstop.
  { apply (stops_first _ (Re.Atom Re.AWord)); [done..|]. apply word_not_space. }
  unfold ASM_LINE_REGEX. rewrite run_bol, run_group.
  apply (ReCaptures.greedy_max (Re.Atom Re.AWord) _ [] [] (ws ++ c :: word));
    [done| |].
  { apply (stops_run _ (Re.Atom Re.ASpace)); [done..|]. apply space_not_word. }
  cbv beta. cbn [app andb Re.is_nil]. rewrite run_plus.
  apply (ReCaptures.greedy_back_one (Re.Atom Re.ASpace) _ ws c [] word);
    [done..| |].
  - cbv beta. cbn [app]. rewrite is_nil_false; [|by destruct ws].
    rewrite run_group. apply ReCaptures.greedy_none.
    intros t rest Hsplit Ht. cbv beta. rewrite run_plus.
    apply ReCaptures.greedy_none. intros t' rest' Hsplit' Ht'. cbv beta.
    destruct t' as [|y t']; [done|]. exfalso.
    rewrite Hsplit, Hsplit' in Hword.
    apply forallb_suffix in Hword. simpl in Hword, Ht'.
    apply andb_prop in Hword as [Hy _]. apply andb_prop in Ht' as [Hy' _].
    apply word_not_space in Hy. simpl in Hy'. congruence.
  - cbv beta. cbn [app]. rewrite (is_nil_false _ Hn). rewrite run_group.
    apply (ReCaptures.greedy_max (Re.Atom Re.AWord) _ [] _ (c :: word)); [done| |].
    { simpl. by apply space_not_word. }
    cbv beta. cbn [app andb Re.is_nil]. rewrite run_plus.
    apply (ReCaptures.greedy_max (Re.Atom Re.ASpace) _ [c] _ word); [|done|].
    { simpl. by rewrite Hc. }
    cbv beta. cbn [app Re.is_nil]. rewrite run_group.
    apply greedy_all.
    + clear -Hword. induction word as [|x word IH]; [done|]. simpl in *.
      apply andb_prop in Hword as [Hx Hword].
      rewrite (IH Hword), andb_true_r.
      exact (word_is_operand x Hx).
    + reflexivity.
Qed.

(** X5. A line made of white space, two characters of it at least, and
    then one word: the word is taken for the operand; the statement has
    no mnemonic and no label, and [match_mnemonic] raises for it,
    whatever the table holds. *)
Theorem indented_word_is_operand (ws word : list ascii) (c : ascii) (w : world) :
  ws <> [] -> forallb is_space ws = true ->
  is_space c = true ->
  word <> [] -> forallb is_word word = true ->
  let line := string_of_list_ascii (ws ++ c :: word) in
  __init__ line w
  = (Next tt,
     mkWorld (heap w)
       (instruction_statement None None (string_of_list_ascii word) None))
  /\ fst ((__init__ line ;; match_mnemonic) w)
     = Raised (TranslationError "Invalid mnemonic [None]").
Proof.
  intros Hn Hws Hc Hnw Hword line.
  destruct word as [|x word']; [done|].
  assert (is_word x = true) as Hx.
  { simpl in Hword. by apply andb_prop in Hword as [? _]. }
  assert (ws ++ c :: x :: word' = (ws ++ [c]) ++ x :: word') as Hs.
  { by rewrite <- app_assoc. }
  assert (forallb is_space (ws ++ [c]) = true) as Hpre.
  { rewrite forallb_app, Hws. simpl. by rewrite Hc. }
  assert (~ blank_line line) as Hb.
  { unfold line. rewrite Hs. by apply not_blank, word_not_space. }
  assert (Re.re_match COMMENT_LINE_REGEX line = None) as Hcm.
  { destruct (Re.re_match COMMENT_LINE_REGEX line) as [data|] eqn:Hcm; [|done].
    exfalso. destruct (comment_line_shape line) as (ws0 & r & Hshape & Hws0).
    { apply ReFacts.re_match_matches. by rewrite Hcm. }
    unfold line in Hshape.
    rewrite list_ascii_of_string_of_list_ascii, Hs in Hshape.
    assert (lstrip ((ws ++ [c]) ++ x :: word') = x :: word') as H1.
    { rewrite (lstrip_spaces _ _ Hpre). simpl.
      by rewrite (word_not_space _ Hx). }
    rewrite Hshape, (lstrip_spaces _ _ Hws0) in H1. simpl in H1.
    injection H1 as <- _. done. }
  assert (Re.re_match ASM_LINE_REGEX line
          = Some [("label", []); ("mnemonic", []); ("operands", x :: word');
                  ("comment", [])]) as Ha.
  { unfold Re.re_match, line. rewrite list_ascii_of_string_of_list_ascii.
    by apply indented_word_run. }
  assert (__init__ line w
          = (Next tt,
             mkWorld (heap w)
               (instruction_statement None None
                  (string_of_list_ascii (x :: word')) None)))
    as Hinit.
  { by rewrite (parse_line_asm _ w _ Hb Hcm Ha). }
  split; [exact Hinit|].
  unfold bind at 1. rewrite Hinit.
  unfold match_mnemonic, call, bind, match_operation, copy, set_instruction,
    modify_self, get_self, when_, raise. simpl.
  rewrite find_operation_none; [done|]. by intros l op _ _.
Qed.

Lemma direct_mark (text : list ascii) :
  forallb (Re.mem OPERAND_CHARS) text = true ->
  Re.run DIR_REGEX true text [] = None.
Proof.
  intros Ht. destruct (Re.run DIR_REGEX true text []) as [r|] eqn:Hr; [|done].
  exfalso. assert (Re.lang DIR_REGEX true text) as Hl.
  { apply (ReFacts.run_lang _ _ _ []). by rewrite Hr. }
  simpl in Hl. destruct Hl as (_ & x & s' & -> & Hx & _).
  simpl in Ht. apply andb_prop in Ht as [Hx' _].
  revert Hx Hx'. clear. each_char x.
Qed.

(** X7. The text of the operand of a statement never starts with the mark
    [<] of a direct value, which is no operand character: [DIR_REGEX]
    matches the operand text of no statement. *)
Theorem direct_mark_never_parsed (line : string) (w w' : world) :
  __init__ line w = (Next tt, w') ->
  operand (self w') = Operand PNone
  \/ exists text,
       operand (self w') = Operand (PStr text)
       /\ Re.re_match DIR_REGEX text = None.
Proof.
  destruct (blank_line_dec line) as [Hb|Hb].
  { rewrite init_then_parse, (parse_line_blank _ _ Hb). intros [= <-]. by left. }
  destruct (Re.re_match COMMENT_LINE_REGEX line) as [data|] eqn:Hc.
  { rewrite (parse_line_comment _ _ _ Hb Hc). intros [= <-]. by left. }
  destruct (Re.re_match ASM_LINE_REGEX line) as [data|] eqn:Ha.
  - rewrite (parse_line_asm _ _ _ Hb Hc Ha). intros [= <-].
    apply asm_captures in Ha as (lbl & mn & opd & cmt & -> & _ & _ & Ho & _).
    right. eexists. split; [done|]. simpl. unfold Re.re_match.
    rewrite list_ascii_of_string_of_list_ascii. by apply direct_mark.
  - by rewrite (parse_line_neither _ _ Hb Hc Ha).
Qed.

(** X8. The statement of a blank line or of a comment line has no
    mnemonic: [match_mnemonic] raises for it, whatever the table holds,
    and leaves it as it is. *)
Theorem empty_statement_unresolvable (line : string) (w w' : world) :
  __init__ line w = (Next tt, w') ->
  empty (self w') = true \/ comment_only (self w') = true ->
  match_mnemonic w'
  = (Raised (TranslationError "Invalid mnemonic [None]"), w').
Proof.
  intros Hinit Hkind.
  assert (mnemonic (self w') = None /\ instruction (self w') = None) as [Hm Hi].
  { revert Hinit Hkind. destruct (blank_line_dec line) as [Hb|Hb].
    { rewrite init_then_parse, (parse_line_blank _ _ Hb). by intros [= <-]. }
    destruct (Re.re_match COMMENT_LINE_REGEX line) as [data|] eqn:Hc.
    { rewrite (parse_line_comment _ _ _ Hb Hc). by intros [= <-]. }
    destruct (Re.re_match ASM_LINE_REGEX line) as [data|] eqn:Ha.
    - rewrite (parse_line_asm _ _ _ Hb Hc Ha). intros [= <-]. simpl.
      by intros [|].
    - by rewrite (parse_line_neither _ _ Hb Hc Ha). }
  unfold match_mnemonic, call, bind, match_operation, copy, set_instruction,
    modify_self, get_self, when_, raise. simpl.
  rewrite find_operation_none; [|by rewrite Hm]. simpl. rewrite Hm.
  destruct w' as [h s]. simpl in *. destruct s. simpl in *. by subst.
Qed.

End Fields.

(** ** The modelled collaborators at work *)

Module SpecModelFacts.
Import SpecModel.

Lemma hex_digits_nonempty (fuel : nat) :
  forall n acc, acc <> EmptyString -> hex_digits fuel n acc <> EmptyString.
Proof.
  induction fuel as [|fuel IH]; intros n acc Hacc; simpl; [done|].
  destruct (N.eqb (n / 16) 0); [done|]. by apply IH.
Qed.

Lemma pad_left_nonempty (width : nat) (s : string) :
  s <> EmptyString -> pad_left width s <> EmptyString.
Proof.
  intros Hs. unfold pad_left. destruct (zeros (width - String.length s)); [done|].
  done.
Qed.

Lemma render_hex_renders : renders.
Proof.
  intros [|z|s] Hv; simpl in *; [done| |].
  - eexists. split; [reflexivity|]. apply pad_left_nonempty. simpl.
    destruct (N.eqb (Z.to_N z / 16) 0); [done|]. by apply hex_digits_nonempty.
  - exists s. split; [done|]. by destruct s.
Qed.

(** The statement of a line, parsed and resolved against the table. *)
Definition resolved (line : string) : world :=
  snd ((__init__ line ;; match_mnemonic) start).

End SpecModelFacts.

(** ** The size of a translated statement *)

Section Sizes.

Context `{E : Externals}.

Abbreviation Stmt := (Statement OperandT).

(** C1. A branch whose relative opcode renders to at least one byte,
    in a statement of size 0: [translate] returns with the opcode set
    and with [size] still 0, less than the encoded length of the
    statement, because the [return] after the assignment skips the
    three statements that add to [size]. *)
Theorem branch_leaves_size (symbol_table : gmap string Stmt)
    (w : world) (l : loc) (i : InstructionT) :
  instruction (self w) = Some l ->
  heap w !! l = Some i ->
  is_pseudo i = false ->
  is_special i = false ->
  is_symbol (operand (self w)) = false ->
  is_branch_operation i = true ->
  size (self w) = 0 ->
  0 < present_bytes (rel (mode i)) ->
  exists w', translate symbol_table w = (Next tt, w')
    /\ op_code (self w') = rel (mode i)
    /\ size (self w') = 0
    /\ 0 < encoded_length (self w').
Proof.
  intros Hl Hi Hp Hs Hsym Hb Hsize Hbytes.
  destruct (early_return_leaves_size symbol_table w l i Hl Hi) as (_ & _ & H).
  destruct (H Hp Hs Hsym Hb) as (w' & Hrun & Hop & Hsz).
  exists w'. split_and!; [done | done | congruence |].
  unfold encoded_length. rewrite Hop. lia.
Qed.

(** C5. The line of the example is parsed into the label [LOOP], the
    mnemonic [LDA], the operand made of the text [#$05] and the comment
    [load]; the modelled classifier takes that operand for an immediate
    one, of value 5.  For an operand that is immediate and nothing else,
    and an instruction that has the immediate mode and is neither a
    pseudo operation, nor special, nor a branch, [translate] sets
    [op_code] to the immediate opcode and [additional] to the immediate
    value; in a statement of size 0 without post-byte, when neither the
    opcode nor the value is zero, [size] is the number of bytes of the
    rendered opcode plus that of the rendered value: 2 when each is one
    byte. *)
Theorem immediate_operand_translation (symbol_table : gmap string Stmt)
    (w : world) (l : loc) (i : InstructionT) :
  instruction (self w) = Some l ->
  heap w !! l = Some i ->
  is_pseudo i = false ->
  is_special i = false ->
  is_branch_operation i = false ->
  only_shape (operand (self w)) IMM ->
  supports_immediate (mode i) = true ->
  renders ->
  (forall w0, __init__ "LOOP    LDA     #$05        ; load" w0
     = (Next tt,
        mkWorld (heap w0)
          (mkStatement false false None (Some "LOOP") (Operand (PStr "#$05"))
             (Some "load") 0 (hex_value (PInt 0) (Some 4)) (Some "LDA")
             PNone PNone PNone PNone)))
  /\ (SpecModel.has_type SpecModel.IMMEDIATE (SpecModel.make_operand (PStr "#$05"))
      = true
      /\ SpecModel.number_value (SpecModel.make_operand (PStr "#$05")) = PInt 5)
  /\ exists w', translate symbol_table w = (Next tt, w')
       /\ op_code (self w') = imm (mode i)
       /\ additional (self w') = get_immediate (operand (self w))
       /\ (size (self w) = 0 -> post_byte (self w) = PNone ->
           truthy (imm (mode i)) = true ->
           truthy (get_immediate (operand (self w))) = true ->
           size (self w')
           = rendered_bytes (imm (mode i))
             + rendered_bytes (get_immediate (operand (self w)))
           /\ (rendered_bytes (imm (mode i)) = 1 ->
               rendered_bytes (get_immediate (operand (self w))) = 1 ->
               size (self w') = 2)).
Proof.
  intros Hl Hi Hp Hs Hb Hshape Hsup Hr. split_and!.
  - intros [h s]. vm_compute. reflexivity.
  - reflexivity.
  - reflexivity.
  - destruct (immediate_operand_run symbol_table w l i Hl Hi Hp Hs Hb Hshape Hsup Hr)
      as (w' & Hrun & Hop & Hadd & _ & Hsz).
    exists w'. split_and!; [done..|].
    intros H0 Hpb H1 H2. rewrite Hsz, H0, Hpb. unfold counted_bytes.
    rewrite H1, H2. simpl. split; [lia|]. intros -> ->. reflexivity.
Qed.

End Sizes.

(** ** Runs on concrete lines *)

Local Abbreviation resolved := SpecModelFacts.resolved.

Ltac by_computation := vm_compute; reflexivity.

Ltac one_shape :=
  split; [by_computation | intros []; by_computation].

(** A branch and a data directive, assembled: [translate] returns
    with an opcode (with additional bytes) that renders as one byte, and
    [size] is still 0. *)
Example early_return_size_zero :
  (let r := SpecModel.assemble "   BRA     $10" ∅ in
   fst r = Next tt
   /\ is_branch_operation SpecModel.BRA = true
   /\ op_code (self (snd r)) = rel (mode SpecModel.BRA)
   /\ get_op_codes (self (snd r)) = PStr "20"
   /\ encoded_length (self (snd r)) = 1
   /\ size (self (snd r)) = 0)
  /\ (let r := SpecModel.assemble "   FCB     $01" ∅ in
      fst r = Next tt
      /\ is_pseudo SpecModel.FCB = true
      /\ get_additional (self (snd r)) = PStr "01"
      /\ encoded_length (self (snd r)) = 1
      /\ size (self (snd r)) = 0).
Proof. split; split_and!; by_computation. Qed.

Module SymbolExample.

(** A statement at the address [0x0E00], as [set_address] stores it. *)
Definition target : Statement OperandT :=
  self (snd (set_address (PInt 3584) SpecModel.start)).



End SymbolExample.



(** C3, at a line whose mnemonic the table does not hold. *)
Lemma unknown_mnemonic_witness :
  let w := snd (__init__ " FOO  " SpecModel.start) in
  (exists w',
     match_mnemonic w
     = (Raised (TranslationError
          ("Invalid mnemonic [" ++ format_opt (mnemonic (self w)) ++ "]")), w')
     /\ heap w' = heap w
     /\ instruction (self w') = None
     /\ op_code (self w') = op_code (self w)
     /\ post_byte (self w') = post_byte (self w)
     /\ additional (self w') = additional (self w)
     /\ size (self w') = size (self w)
     /\ translate ∅ w' = (Raised AttributeError, w'))
  /\ (instruction (self w) = None ->
      translate ∅ w = (Raised AttributeError, w)).
Proof.
  intros w. apply (unknown_mnemonic_fails ∅ w).
  intros l op Hin Hop. vm_compute in Hin.
  repeat (apply elem_of_cons in Hin as [->|Hin]);
    [vm_compute in Hop; injection Hop as <-; vm_compute; discriminate ..|].
  by apply elem_of_nil in Hin.
Defined.

(** C3. A statement whose mnemonic the table does not hold, straight
    after its construction: [translate] raises [AttributeError], and it
    is [match_mnemonic] that raises the [TranslationError]. *)
Lemma translate_without_resolution :
  let w := snd (__init__ " FOO  " SpecModel.start) in
  mnemonic (self w) = Some "FOO"
  /\ find_operation (heap w) (mnemonic (self w)) INSTRUCTIONS = None
  /\ fst (translate ∅ w) = Raised AttributeError
  /\ op_code (self (snd (translate ∅ w))) = PNone
  /\ fst (match_mnemonic w)
     = Raised (TranslationError "Invalid mnemonic [FOO]").
Proof. split_and!; by_computation. Qed.

(** C4, at a jump to a label that no statement defines. *)
Lemma unknown_symbol_witness :
  let w := resolved " JMP  FOO" in
  translate ∅ w
  = (Raised (TranslationError
       ("Unknown symbol [" ++ py_format (get_string_value (operand (self w))) ++ "]")),
     w).
Proof.
  intros w.
  apply (unknown_symbol_fails ∅ w 6 SpecModel.JMP); by_computation.
Defined.

(** C6, at [JMP], which has an indexed mode, and at [NOP], which has
    none. *)
Lemma extended_indirect_witness :
  (let w := resolved " JMP  [$1234]" in
   exists w', translate ∅ w = (Next tt, w')
     /\ op_code (self w') = ind (mode SpecModel.JMP)
     /\ additional (self w') = get_extended_indirect (operand (self w))
     /\ post_byte (self w') = PInt 159)
  /\ (let w := resolved " NOP  [$1234]" in
      translate ∅ w
      = (Raised (TranslationError
           ("Instruction [" ++ format_opt (mnemonic (self w))
            ++ "] does not support indexed addressing")), w)).
Proof.
  split; intros w.
  - refine (proj1 (extended_indirect_translation ∅ w 6 SpecModel.JMP
                     _ _ _ _ _ _) _ _);
      try by_computation; [one_shape | apply SpecModelFacts.render_hex_renders].
  - refine (proj2 (extended_indirect_translation ∅ w 6 SpecModel.NOP
                     _ _ _ _ _ _) _);
      try by_computation. one_shape.
Defined.

(** C7, at the descriptor of [LDA] while a line that uses it is
    resolved and translated. *)
Lemma instruction_table_witness :
  let w := snd (__init__ " LDA  #$05" SpecModel.start) in
  heap (snd (match_mnemonic w)) !! 1 = Some SpecModel.LDA
  /\ heap (snd (translate ∅ w)) !! 1 = Some SpecModel.LDA
  /\ heap (snd ((match_mnemonic ;; translate ∅) w)) !! 1 = Some SpecModel.LDA
  /\ (forall l', instruction (self (snd (match_mnemonic w))) = Some l' -> l' <> 1).
Proof.
  intros w. apply (instruction_table_unchanged ∅ w 1 SpecModel.LDA).
  - apply elem_of_cons; right. apply elem_of_cons; left. reflexivity.
  - by_computation.
Defined.

(** C8, at a line of three blanks. *)
Lemma blank_line_witness :
  __init__ "   " SpecModel.start
  = (Next tt,
     mkWorld (heap SpecModel.start)
       (mkStatement true false None None (Operand PNone) None 0
          (hex_value (PInt 0) (Some 4)) None PNone PNone PNone PNone)).
Proof. apply (blank_line_statement "   " SpecModel.start). by_computation. Defined.

(** C10, at a load with an immediate operand. *)
Lemma translate_writes_witness :
  let w := resolved " LDA  #$05" in
  let s' := self (snd (translate ∅ w)) in
  label s' = label (self w) /\ mnemonic s' = mnemonic (self w)
  /\ comment s' = comment (self w) /\ address s' = address (self w)
  /\ operand s' = operand (self w) /\ empty s' = empty (self w)
  /\ comment_only s' = comment_only (self w)
  /\ instruction s' = instruction (self w) /\ state s' = state (self w).
Proof.
  intros w.
  apply (translate_writes_encoding_only ∅ w 6 SpecModel.LDA); by_computation.
Defined.

(** A line with no white space in it has none of the three shapes. *)
Example bare_mnemonic_unparsable :
  fst (parse_line "LDA" SpecModel.start)
  = Raised (ParseError "Could not parse line [LDA]").
Proof. by_computation. Qed.

(** C1, at a branch to an address: the opcode [0x20] is one byte and
    [size] is 0. *)
Lemma branch_leaves_size_witness :
  let w := resolved "   BRA     $10" in
  exists w', translate ∅ w = (Next tt, w')
    /\ op_code (self w') = rel (mode SpecModel.BRA)
    /\ size (self w') = 0
    /\ 0 < encoded_length (self w').
Proof.
  intros w.
  apply (branch_leaves_size ∅ w 6 SpecModel.BRA); by_computation.
Defined.

(** C5, at the line of the example, with [LDA] of immediate opcode
    [0x86]. *)
Lemma immediate_operand_witness :
  let w := resolved "LOOP    LDA     #$05        ; load" in
  exists w', translate ∅ w = (Next tt, w')
    /\ op_code (self w') = imm (mode SpecModel.LDA)
    /\ additional (self w') = get_immediate (operand (self w))
    /\ (size (self w) = 0 -> post_byte (self w) = PNone ->
        truthy (imm (mode SpecModel.LDA)) = true ->
        truthy (get_immediate (operand (self w))) = true ->
        size (self w')
        = rendered_bytes (imm (mode SpecModel.LDA))
          + rendered_bytes (get_immediate (operand (self w)))
        /\ (rendered_bytes (imm (mode SpecModel.LDA)) = 1 ->
            rendered_bytes (get_immediate (operand (self w))) = 1 ->
            size (self w') = 2)).
Proof.
  intros w.
  refine (proj2 (proj2 (immediate_operand_translation ∅ w 6 SpecModel.LDA
                          _ _ _ _ _ _ _ _)));
    try by_computation; [one_shape | apply SpecModelFacts.render_hex_renders].
Defined.

(** The line of the example, assembled with [LDA] of immediate opcode
    [0x86]: opcode [86], additional byte [05], size 2. *)
Example immediate_example_run :
  let r := SpecModel.assemble "LOOP    LDA     #$05        ; load" ∅ in
  fst r = Next tt
  /\ label (self (snd r)) = Some "LOOP"
  /\ mnemonic (self (snd r)) = Some "LDA"
  /\ comment (self (snd r)) = Some "load"
  /\ is_immediate (operand (self (snd r))) = true
  /\ get_immediate (operand (self (snd r))) = PInt 5
  /\ get_op_codes (self (snd r)) = PStr "86"
  /\ get_additional (self (snd r)) = PStr "05"
  /\ size (self (snd r)) = 2.
Proof. split_and!; by_computation. Qed.

(** C5. An immediate operand of two bytes: [LDX] has the immediate
    mode, with opcode [0x8E], the operand is immediate, [translate]
    returns with that opcode and the immediate value, and [size] is 3,
    not 2. *)
Lemma immediate_word_size_three :
  let r := SpecModel.assemble "   LDX     #$1234" ∅ in
  fst r = Next tt
  /\ is_immediate (operand (self (snd r))) = true
  /\ supports_immediate (mode SpecModel.LDX) = true
  /\ op_code (self (snd r)) = imm (mode SpecModel.LDX)
  /\ get_op_codes (self (snd r)) = PStr "8E"
  /\ additional (self (snd r)) = PInt 4660
  /\ get_additional (self (snd r)) = PStr "1234"
  /\ size (self (snd r)) = 3.
Proof. split_and!; by_computation. Qed.

(** ** More runs *)

Lemma run_pair {A : Type} `{E : Externals} (r : outcome A * world) (o : outcome A) :
  fst r = o -> r = (o, snd r).
Proof. destruct r as [o' w']. simpl. by intros ->. Qed.

Ltac not_by_computation :=
  let H := fresh in intros H; vm_compute in H; discriminate.

(** A comment line with white space on both sides of the text and a
    newline at its end. *)
Lemma comment_line_witness :
  __init__
    (string_of_list_ascii
       (list_ascii_of_string "  " ++ ";"%char
          :: list_ascii_of_string "  a note " ++ [newline]))
    SpecModel.start
  = (Next tt,
     mkWorld (heap SpecModel.start)
       (mkStatement false true None None (Operand PNone)
          (Some (strip (string_of_list_ascii (list_ascii_of_string "  a note "))))
          0 (hex_value (PInt 0) (Some 4)) None PNone PNone PNone PNone)).
Proof.
  apply (comment_line_statement (list_ascii_of_string "  ")
           (list_ascii_of_string "  a note ") [newline] SpecModel.start);
    [by_computation | by_computation | by right].
Defined.

(** The kind of the statement of a line that holds a label, a mnemonic
    and an operand. *)
Lemma statement_kinds_witness :
  let line := "START   LDA     #$05" in
  let w := SpecModel.start in
  let w' := snd (__init__ line w) in
  (heap w' = heap w /\ instruction (self w') = None /\ size (self w') = 0
   /\ op_code (self w') = PNone /\ post_byte (self w') = PNone
   /\ additional (self w') = PNone)
  /\ ((blank_line line
       /\ empty (self w') = true /\ comment_only (self w') = false
       /\ label (self w') = None /\ mnemonic (self w') = None
       /\ comment (self w') = None)
      \/ (~ blank_line line /\ Re.matches COMMENT_LINE_REGEX line
          /\ empty (self w') = false /\ comment_only (self w') = true
          /\ label (self w') = None /\ mnemonic (self w') = None
          /\ is_Some (comment (self w')))
      \/ (~ blank_line line /\ ~ Re.matches COMMENT_LINE_REGEX line
          /\ Re.matches ASM_LINE_REGEX line
          /\ empty (self w') = false /\ comment_only (self w') = false)).
Proof.
  intros line w w'. apply (statement_kinds line w w').
  apply (run_pair (__init__ line w) (Next tt)). by_computation.
Defined.

(** The fields of the statement of the same line. *)
Lemma parsed_fields_witness :
  let w' := snd (__init__ "START   LDA     #$05" SpecModel.start) in
  (forall l, label (self w') = Some l ->
     l <> "" /\ forallb is_word (list_ascii_of_string l) = true)
  /\ (forall m, mnemonic (self w') = Some m ->
        m <> "" /\ forallb is_word (list_ascii_of_string m) = true)
  /\ (operand (self w') = Operand PNone
      \/ exists text,
           operand (self w') = Operand (PStr text)
           /\ forallb (Re.mem OPERAND_CHARS) (list_ascii_of_string text) = true)
  /\ (comment_only (self w') = false -> comment (self w') <> Some "").
Proof.
  intros w'.
  apply (parsed_fields_are_words "START   LDA     #$05" SpecModel.start w').
  apply (run_pair (__init__ "START   LDA     #$05" SpecModel.start) (Next tt)).
  by_computation.
Defined.

(** A label and a mnemonic with one blank between them, and nothing
    after the mnemonic. *)
Lemma few_spaces_witness :
  parse_line "START NOP" SpecModel.start
  = (Raised (ParseError ("Could not parse line [" ++ "START NOP" ++ "]")),
     SpecModel.start).
Proof.
  apply (few_spaces_parse_error "START NOP" SpecModel.start);
    [not_by_computation | by_computation | not_by_computation].
Defined.

(** A mnemonic after three blanks, with nothing after it. *)
Lemma indented_word_witness :
  let line :=
    string_of_list_ascii
      (list_ascii_of_string "  " ++ " "%char :: list_ascii_of_string "NOP") in
  __init__ line SpecModel.start
  = (Next tt,
     mkWorld (heap SpecModel.start)
       (instruction_statement None None
          (string_of_list_ascii (list_ascii_of_string "NOP")) None))
  /\ fst ((__init__ line ;; match_mnemonic) SpecModel.start)
     = Raised (TranslationError "Invalid mnemonic [None]").
Proof.
  apply (indented_word_is_operand (list_ascii_of_string "  ")
           (list_ascii_of_string "NOP") " "%char SpecModel.start);
    first [by_computation | done].
Defined.

(** The line of the example of the specification. *)
Lemma instruction_line_witness :
  __init__
    (string_of_list_ascii
       (list_ascii_of_string "LOOP" ++ list_ascii_of_string "    "
        ++ list_ascii_of_string "LDA" ++ list_ascii_of_string "     "
        ++ list_ascii_of_string "#$05" ++ list_ascii_of_string "        "
        ++ list_ascii_of_string ";" ++ list_ascii_of_string " load" ++ []))
    SpecModel.start
  = (Next tt,
     mkWorld (heap SpecModel.start)
       (instruction_statement
          (str_or_None (string_of_list_ascii (list_ascii_of_string "LOOP")))
          (Some (string_of_list_ascii (list_ascii_of_string "LDA")))
          (string_of_list_ascii (list_ascii_of_string "#$05"))
          (str_or_None
             (strip (string_of_list_ascii (list_ascii_of_string " load")))))).
Proof.
  apply (instruction_line_fields (list_ascii_of_string "LOOP")
           (list_ascii_of_string "    ") (list_ascii_of_string "LDA")
           (list_ascii_of_string "     ") (list_ascii_of_string "#$05")
           (list_ascii_of_string "        ") (list_ascii_of_string ";")
           (list_ascii_of_string " load") [] SpecModel.start);
    first [by_computation | done | by left].
Defined.

(** [LDA] is the second descriptor of the table. *)
Lemma match_mnemonic_witness :
  let w := snd (__init__ " LDA  #$05" SpecModel.start) in
  let l' := fresh (dom (heap w)) in
  match_mnemonic w
  = set_instruction (Some l') (mkWorld (<[l' := SpecModel.LDA]> (heap w)) (self w))
  /\ heap w !! l' = None
  /\ self_instruction (snd (match_mnemonic w))
     = (Next SpecModel.LDA, snd (match_mnemonic w)).
Proof.
  intros w.
  apply (match_mnemonic_binds_copy w [0] [2; 3; 4; 5] 1 SpecModel.LDA);
    try by_computation.
  intros l0 op0 Hin Hop. apply list_elem_of_singleton in Hin as ->.
  vm_compute in Hop. injection Hop as <-. vm_compute. discriminate.
Defined.

(** A jump to an address: the extended mode of [JMP]. *)
Lemma supported_mode_witness :
  let w := resolved " JMP  $1234" in
  exists w', translate ∅ w = (Next tt, w')
    /\ heap w' = heap w
    /\ op_code (self w') = opcode_of EXT (mode SpecModel.JMP)
    /\ additional (self w')
       = operand_bytes EXT (operand (self w)) (additional (self w))
    /\ post_byte (self w') = post_byte_of EXT (post_byte (self w))
    /\ size (self w')
       = size (self w) + counted_bytes (op_code (self w'))
         + counted_bytes (additional (self w'))
         + counted_bytes (post_byte (self w')).
Proof.
  intros w.
  apply (supported_mode_translation ∅ w 6 SpecModel.JMP EXT);
    try by_computation; [one_shape | apply SpecModelFacts.render_hex_renders].
Defined.

(** [NOP] with a direct operand. *)
Lemma unsupported_mode_witness :
  let w := with_operand (Operand (PStr "<$10")) (resolved " NOP  ") in
  translate ∅ w
  = (Raised (TranslationError
       ("Instruction [" ++ format_opt (mnemonic (self w)) ++ refusal DIR)), w).
Proof.
  intros w.
  apply (unsupported_mode_fails ∅ w 6 SpecModel.NOP DIR);
    try by_computation. one_shape.
Defined.

(** [LDA] with an immediate operand, translated twice. *)
Lemma translate_again_witness :
  let w := resolved " LDA  #$05" in
  exists w1 w2 n,
    translate ∅ w = (Next tt, w1)
    /\ translate ∅ w1 = (Next tt, w2)
    /\ op_code (self w2) = op_code (self w1)
    /\ additional (self w2) = additional (self w1)
    /\ post_byte (self w2) = post_byte (self w1)
    /\ n = counted_bytes (op_code (self w1))
           + counted_bytes (additional (self w1))
           + counted_bytes (post_byte (self w1))
    /\ size (self w1) = size (self w) + n
    /\ size (self w2) = size (self w) + 2 * n.
Proof.
  intros w.
  apply (translate_again_adds_size ∅ w 6 SpecModel.LDA IMM);
    try by_computation; [one_shape | apply SpecModelFacts.render_hex_renders].
Defined.

(** The data directive [FCB]. *)
Lemma pseudo_witness :
  let w := resolved " FCB  $01" in
  (is_pseudo SpecModel.FCB = true ->
   translate ∅ w
   = set_additional
       (translate_pseudo SpecModel.FCB (get_label (self w)) (operand (self w)) ∅) w)
  /\ (is_pseudo SpecModel.FCB = false -> is_special SpecModel.FCB = true ->
      translate ∅ w
      = set_post_byte (translate_special SpecModel.FCB (operand (self w))) w).
Proof.
  intros w.
  apply (pseudo_and_special_translation ∅ w 6 SpecModel.FCB); by_computation.
Defined.

(** A jump to a label that the table of symbols holds. *)
Lemma symbol_operand_witness :
  let symbol_table : gmap string (Statement OperandT) :=
    {[ "FOO" := SpecModel.blank ]} in
  let w := resolved " JMP  FOO" in
  let r :=
    translate symbol_table
      (with_operand (Operand (get_address SpecModel.blank)) w) in
  translate symbol_table w = (fst r, with_operand (operand (self w)) (snd r)).
Proof.
  intros symbol_table w.
  apply (symbol_operand_substitution symbol_table w 6 SpecModel.JMP
           SpecModel.blank); by_computation.
Defined.

(** [LDA] with an immediate operand. *)
Lemma main_path_witness :
  let w := resolved " LDA  #$05" in
  let w' := snd (translate ∅ w) in
  size (self w')
  = size (self w) + counted_bytes (op_code (self w'))
    + counted_bytes (additional (self w'))
    + counted_bytes (post_byte (self w')).
Proof.
  intros w w'.
  refine (main_path_size ∅ w w' 6 SpecModel.LDA _ _ _ _ _ _
            SpecModelFacts.render_hex_renders
            (run_pair (translate ∅ w) (Next tt) _)); by_computation.
Defined.

Module ZeroOpcode.

(** Modelled from the spec: the row of [NEG] in the table
    [INSTRUCTIONS]; its opcode in the direct mode is [0x00]. *)
Definition NEG : SpecModel.instruction_obj :=
  SpecModel.mkInstruction "NEG"
    (SpecModel.mkMode PNone PNone (PInt 96) (PInt 0) (PInt 112) PNone)
    false false false.

(** The statement of a line with [NEG] and a direct operand, bound to
    the descriptor. *)
Definition negate : world :=
  snd ((__init__ " NEG  " ;;
        set_operand (Operand (PStr "<$10")) ;;
        set_instruction (Some 0))
         (mkWorld {[ 0 := NEG ]} SpecModel.blank)).

End ZeroOpcode.

(** [NEG] with a direct operand. *)
Lemma zero_opcode_witness :
  let w := ZeroOpcode.negate in
  exists w', translate ∅ w = (Next tt, w')
    /\ op_code (self w') = PInt 0
    /\ size (self w')
       = size (self w) + counted_bytes (additional (self w'))
         + counted_bytes (post_byte (self w')).
Proof.
  intros w.
  apply (zero_opcode_not_counted ∅ w 0 ZeroOpcode.NEG DIR);
    try by_computation; [one_shape | apply SpecModelFacts.render_hex_renders].
Defined.

(** A line whose operand is written as a direct value: the text after
    the mnemonic is no operand. *)
Lemma direct_mark_witness :
  let w' := snd (__init__ " LDA  <$10" SpecModel.start) in
  operand (self w') = Operand PNone
  \/ exists text,
       operand (self w') = Operand (PStr text)
       /\ Re.re_match DIR_REGEX text = None.
Proof.
  intros w'.
  apply (direct_mark_never_parsed " LDA  <$10" SpecModel.start w').
  apply (run_pair (__init__ " LDA  <$10" SpecModel.start) (Next tt)).
  by_computation.
Defined.

(** A comment line. *)
Lemma empty_statement_witness :
  let w' := snd (__init__ "; a note" SpecModel.start) in
  match_mnemonic w'
  = (Raised (TranslationError "Invalid mnemonic [None]"), w').
Proof.
  intros w'.
  apply (empty_statement_unresolvable "; a note" SpecModel.start w').
  - apply (run_pair (__init__ "; a note" SpecModel.start) (Next tt)).
    by_computation.
  - right. by_computation.
Defined.

(** A branch to a label that the table of symbols holds. *)
Lemma branch_translation_witness :
  let symbol_table : gmap string (Statement OperandT) :=
    {[ "LOOP" := SpecModel.blank ]} in
  let w := resolved " BRA  LOOP" in
  translate symbol_table w = set_op_code (rel (mode SpecModel.BRA)) w.
Proof.
  intros symbol_table w.
  apply (branch_translation symbol_table w 6 SpecModel.BRA);
    try by_computation.
  right. exists SpecModel.blank. split_and!; by_computation.
Defined.

Module ListingExample.

(** Modelled from the spec: the attribute [operand_type] of an operand,
    the name of its shape. *)
Definition kind (o : OperandT) : pyval :=
  PStr match SpecModel.otype o with
       | SpecModel.INHERENT => "INHERENT"
       | SpecModel.IMMEDIATE => "IMMEDIATE"
       | SpecModel.DIRECT => "DIRECT"
       | SpecModel.EXTENDED => "EXTENDED"
       | SpecModel.EXTENDED_INDIRECT => "EXTENDED_INDIRECT"
       | SpecModel.SYMBOL => "SYMBOL"
       end.

(** The statement of the line of the example, translated. *)
Definition translated : Statement OperandT :=
  self (snd (SpecModel.assemble "LOOP    LDA     #$05        ; load" ∅)).

(** Its listing line. *)
Definition listing : string :=
  Eval vm_compute in
    match __str__ kind translated with
    | inr text => text
    | inl _ => ""
    end.

End ListingExample.

(** The listing line of the example. *)
Lemma listing_columns_witness :
  let s := ListingExample.translated in
  let text := ListingExample.listing in
  exists ops opnd codes lbl mn opd cmt,
    op_code_string s = inr ops
    /\ get_string_value (operand s) = PStr opnd
    /\ text
       = ("$" ++ py_format (get_address s) ++ " " ++ codes ++ " " ++ lbl ++ " "
          ++ mn ++ " " ++ opd ++ "  ; " ++ cmt ++ " "
          ++ py_format (ListingExample.kind (operand s)))%string
    /\ left_aligned 15 ops codes
    /\ right_aligned 10 (get_label s) lbl
    /\ right_aligned 5 (get_mnemonic s) mn
    /\ right_aligned 15 opnd opd
    /\ left_aligned 40 (get_comment s) cmt
    /\ String.length text
       = String.length (py_format (get_address s))
         + Nat.max 15 (String.length ops)
         + Nat.max 10 (String.length (get_label s))
         + Nat.max 5 (String.length (get_mnemonic s))
         + Nat.max 15 (String.length opnd)
         + Nat.max 40 (String.length (get_comment s))
         + String.length (py_format (ListingExample.kind (operand s)))
         + 10.
Proof.
  intros s text.
  apply (listing_columns ListingExample.kind s text).
  by_computation.
Defined.
